(** * taierspeed-cli: a shallow embedding of [speedtest/speedtest.go] and
      [defs/bytes_counter.go]

    Part I gives the embedding, one module per Go package or library
    used by the code under study; Part II states and proves the
    properties of the credential codec, the server filters, the
    latency-based selection and the byte counter. *)

From Stdlib Require Import ZArith Lia Bool List Ascii String DecimalString Permutation.
From Stdlib Require Import Strings.Byte Floats.SpecFloat.
From Stdlib Require DecimalZ DecimalPos.
From Equations Require Import Equations.
From stdpp Require Import gmap strings list.

Local Open Scope Z_scope.

(* ===================================================================== *)
(** * Part I: the embedding                                               *)
(* ===================================================================== *)

(** ** Go runtime: outcomes of a call, machine integers, strings *)
Module Go.

(** A call returns, panics (an uncaught run-time panic ends the call path)
    or ends the process ([log.Fatal]). *)
Inductive outcome (A : Type) : Type :=
| Ret (a : A)
| Panic (msg : string)
| Fatal (msg : string).
Arguments Ret {A} a.
Arguments Panic {A} msg.
Arguments Fatal {A} msg.

Definition bind {A B : Type} (c : outcome A) (k : A -> outcome B) : outcome B :=
  match c with
  | Ret a => k a
  | Panic msg => Panic msg
  | Fatal msg => Fatal msg
  end.

(** An [error] value made by [errors.New]; [io.EOF] is one. *)
Inductive error : Type :=
| errors_New (msg : string).

Definition Error (e : error) : string :=
  match e with errors_New msg => msg end.

Definition io_EOF : error := errors_New "EOF".

(** [int] is 64 bits wide and signed, [uint64] is unsigned; both wrap. *)
Definition wrap_int (z : Z) : Z := (z + 2 ^ 63) mod 2 ^ 64 - 2 ^ 63.
Definition wrap_uint64 (z : Z) : Z := z mod 2 ^ 64.

(** [len] of a slice or of a string, as an [int]. *)
Definition len {A : Type} (l : list A) : Z := Z.of_nat (List.length l).
Definition lenString (s : string) : Z := Z.of_nat (String.length s).

(** [byte(n)] for an [int] n keeps the low eight bits. *)
Definition byte_of_int (n : Z) : byte :=
  match Byte.of_N (Z.to_N (n mod 256)) with
  | Some b => b
  | None => x00
  end.

(** [int(b)] for a byte. *)
Definition int_of_byte (b : byte) : Z := Z.of_N (Byte.to_N b).

(** [strconv.Itoa] and the verb [%d]: decimal digits, a minus sign first
    for a negative number. *)
Definition Itoa (n : Z) : string := NilZero.string_of_int (Z.to_int n).

(** [strings.Contains s substr]: substr occurs in s at some byte offset. *)
Fixpoint Contains (s substr : string) : bool :=
  if String.prefix substr s then true
  else match s with
       | EmptyString => false
       | String _ s' => Contains s' substr
       end.

End Go.

Notation "'let*' x ':=' c1 'in' c2" := (Go.bind c1 (fun x => c2))
  (at level 10, x name, c1 at level 100, c2 at level 200).

(** ** float64: IEEE 754 binary64 values, with the operations of the
    Standard Library's [SpecFloat] at precision 53 and exponent bound 1024 *)
Module Float64.

Definition float64 : Type := spec_float.
Definition prec : Z := 53.
Definition emax : Z := 1024.

(** [float64(n)] for an integer n: the nearest value, ties to even. *)
Definition of_int (n : Z) : float64 := binary_normalize prec emax n 0 false.
Definition zero : float64 := S754_zero false.
Definition div (x y : float64) : float64 := SFdiv prec emax x y.
Definition ltb (x y : float64) : bool := SFltb x y.
Definition leb (x y : float64) : bool := SFleb x y.

(** Two decimal digits, a leading zero kept. *)
Definition twoDigits (n : Z) : string :=
  if n <? 10 then String "0" (Go.Itoa n) else Go.Itoa n.

(** The hundredths nearest to [m * 2 ^ e], ties to the even one: the
    correctly rounded decimal that [strconv] prints for the verb [%.2f]. *)
Definition hundredths (m : positive) (e : Z) : Z :=
  if 0 <=? e then Z.pos m * 2 ^ e * 100
  else
    let den := 2 ^ (- e) in
    let q := (Z.pos m * 100) / den in
    let r := (Z.pos m * 100) mod den in
    if (den <? 2 * r) || ((den =? 2 * r) && Z.odd q) then q + 1 else q.

(** [fmt.Sprintf("%.2f", x)]. *)
Definition fmt2f (x : float64) : string :=
  match x with
  | S754_nan => "NaN"
  | S754_infinity false => "+Inf"
  | S754_infinity true => "-Inf"
  | S754_zero false => "0.00"
  | S754_zero true => "-0.00"
  | S754_finite sgn m e =>
      let h := hundredths m e in
      ((if sgn then "-" else "") ++ Go.Itoa (h / 100) ++ "." ++ twoDigits (h mod 100))%string
  end.

End Float64.

(** ** Package bytes: [bytes.Reader] over a byte slice *)
Module Bytes.

(** The built-in [copy dst src]: the number of bytes copied and [dst]
    afterwards. *)
Definition copy (dst src : list byte) : Z * list byte :=
  let n := Nat.min (List.length dst) (List.length src) in
  (Z.of_nat n, firstn n src ++ skipn n dst).

(** A [bytes.Reader]: the slice read from and the reading index. *)
Record Reader : Type := mkReader {
  s : list byte;
  i : Z
}.

Definition NewReader (b : list byte) : Reader := mkReader b 0.

(** [Reader.Read]: the buffer afterwards, the count and the error. *)
Definition Read (r : Reader) (b : list byte) : (list byte * Z * option Go.error) * Reader :=
  if Go.len (s r) <=? i r then ((b, 0, Some Go.io_EOF), r)
  else
    let '(n, b') := copy b (skipn (Z.to_nat (i r)) (s r)) in
    ((b', n, None), mkReader (s r) (i r + n)).

(** [Reader.Seek(offset, whence)]: io.SeekStart is 0, io.SeekCurrent is
    1 and io.SeekEnd is 2. *)
Definition Seek (r : Reader) (offset whence : Z) : (Z * option Go.error) * Reader :=
  let target :=
    if whence =? 0 then Some offset
    else if whence =? 1 then Some (i r + offset)
    else if whence =? 2 then Some (Go.len (s r) + offset)
    else None in
  match target with
  | None => ((0, Some (Go.errors_New "bytes.Reader.Seek: invalid whence")), r)
  | Some abs =>
      if abs <? 0 then ((0, Some (Go.errors_New "bytes.Reader.Seek: negative position")), r)
      else ((abs, None), mkReader (s r) abs)
  end.

End Bytes.

(** ** Package defs: the data model shared by the packages *)
Module Defs.

(** Modelled from the spec: the declaration of [defs.ServerType] is not
    part of the files under study; the code names [Perception] and
    [WirelessSpeed] and treats every other tag alike (the standard family). *)
Inductive ServerType : Type :=
| Standard
| Perception
| WirelessSpeed.

(** Modelled from the spec: the declaration of [defs.Server] is not part of
    the files under study; the fields are those the code reads or writes.
    [Typ] is the field [Type]. *)
Record Server : Type := mkServer {
  ID : Z;
  Name : string;
  IP : string;
  IPv6 : string;
  URL : string;
  URLv6 : string;
  Province : string;
  City : string;
  ISP : string;
  Typ : ServerType;
  NoICMP : bool
}.

(** Modelled from the spec: the declaration of [defs.ProvinceInfo] is not
    part of the files under study; the fields are those of the literal in
    [getProvInfo].  [ProvID] and [ProvName] are the fields [ID] and [Name],
    which [Server] has too. *)
Record ProvinceInfo : Type := mkProvinceInfo {
  ProvID : string;
  Code : string;
  Short : string;
  ProvName : string;
  Lon : string;
  Lat : string
}.

(** *** bytes_counter.go *)

(** [BytesCounter]: the fields [start] (a wall-clock instant) and [lock]
    (the mutex every method takes around its updates) are left out; a
    method is one step on the remaining fields.  The [reader] field is
    [nil] until [GenerateBlob] stores a [bytes.Reader] in it. *)
Record BytesCounter : Type := mkCounter {
  pos : Z;
  total : Z;
  payload : list byte;
  reader : option Bytes.Reader;
  mebi : bool;
  uploadSize : Z
}.

Definition NewCounter : BytesCounter := mkCounter 0 0 [] None false 0.

(** Write implements io.Writer *)
Definition Write (c : BytesCounter) (p : list byte) : (Z * option Go.error) * BytesCounter :=
  let n := Go.len p in
  ((n, None),
   mkCounter (pos c) (Go.wrap_uint64 (total c + n)) (payload c) (reader c) (mebi c) (uploadSize c)).

(** resetReader resets the [reader] field to 0 position *)
Definition resetReader (c : BytesCounter) : Go.outcome ((Z * option Go.error) * BytesCounter) :=
  match reader c with
  | None => Go.Panic "invalid memory address or nil pointer dereference"
  | Some r =>
      let '(res, r') := Bytes.Seek r 0 0 in
      Go.Ret (res, mkCounter 0 (total c) (payload c) (Some r') (mebi c) (uploadSize c))
  end.

(** Read implements io.Reader: the buffer afterwards, the count, the
    error, and the counter afterwards. *)
Definition Read (c : BytesCounter) (p : list byte)
  : Go.outcome ((list byte * Z * option Go.error) * BytesCounter) :=
  match reader c with
  | None => Go.Panic "invalid memory address or nil pointer dereference"
  | Some r =>
      let '((p', n, err), r') := Bytes.Read r p in
      let c1 := mkCounter (Go.wrap_int (pos c + n)) (Go.wrap_uint64 (total c + n))
                          (payload c) (Some r') (mebi c) (uploadSize c) in
      let* c2 := (if pos c1 =? uploadSize c1
                  then let* rc := resetReader c1 in Go.Ret (snd rc)
                  else Go.Ret c1) in
      Go.Ret ((p', n, err), c2)
  end.

(** SetMebi sets the base for dividing bytes into megabyte or mebibyte *)
Definition SetMebi (c : BytesCounter) (b : bool) : BytesCounter :=
  mkCounter (pos c) (total c) (payload c) (reader c) b (uploadSize c).

(** SetUploadSize sets the size of payload being uploaded *)
Definition SetUploadSize (c : BytesCounter) (size : Z) : BytesCounter :=
  mkCounter (pos c) (total c) (payload c) (reader c) (mebi c) (Go.wrap_int (size * 1024)).

(** Total returns the total bytes read/written *)
Definition Total (c : BytesCounter) : Z := total c.

(** Bytes returns the Bytes *)
Definition Bytes (c : BytesCounter) : Float64.float64 :=
  Float64.div (Float64.of_int (total c)) (Float64.of_int 8).

(** MBytes returns the MBytes *)
Definition MBytes (c : BytesCounter) : Float64.float64 :=
  let base := if mebi c then Float64.of_int 131072 else Float64.of_int 125000 in
  Float64.div (Bytes c) base.

(** BytesHumanize returns the Bytes/KiloBytes/MegaBytes/GigaBytes (or
    Bytes/KibiBytes/MebiBytes/GibiBytes) *)
Definition BytesHumanize (c : BytesCounter) : string :=
  let val := Bytes c in
  let base := if mebi c then Float64.of_int 1024 else Float64.of_int 1000 in
  if Float64.ltb val base then
    (Float64.fmt2f val ++ " bytes")%string
  else if Float64.ltb (Float64.div val base) base then
    (Float64.fmt2f (Float64.div val base) ++ " KB")%string
  else if Float64.ltb (Float64.div (Float64.div val base) base) base then
    (Float64.fmt2f (Float64.div (Float64.div val base) base) ++ " MB")%string
  else
    (Float64.fmt2f (Float64.div (Float64.div (Float64.div val base) base) base) ++ " GB")%string.

(** getRandomData returns an [length] sized array of random bytes.  The
    system's entropy source is an argument: [None] when reading it fails,
    else the stream of bytes it yields. *)
Definition getRandomData (entropy : option (nat -> byte)) (length : Z) : Go.outcome (list byte) :=
  if length <? 0 then Go.Panic "makeslice: len out of range"
  else match entropy with
       | None => Go.Fatal "Failed to generate random data"
       | Some src => Go.Ret (List.map src (seq 0 (Z.to_nat length)))
       end.

(** GenerateBlob generates a random byte array of [uploadSize] in the
    [payload] field, and sets the [reader] field to read from it *)
Definition GenerateBlob (c : BytesCounter) (entropy : option (nat -> byte)) : Go.outcome BytesCounter :=
  let* data := getRandomData entropy (uploadSize c) in
  Go.Ret (mkCounter (pos c) (total c) data (Some (Bytes.NewReader data)) (mebi c) (uploadSize c)).

End Defs.

(** ** Package encoding/hex *)
Module Hex.

Definition hextable : string := "0123456789abcdef".

Definition hexDigit (n : N) : ascii :=
  match String.get (N.to_nat n) hextable with
  | Some c => c
  | None => "0"%char
  end.

(** [hex.EncodeToString]: two digits a byte, [hextable[v>>4]] then
    [hextable[v&0x0f]]. *)
Fixpoint EncodeToString (src : list byte) : string :=
  match src with
  | [] => EmptyString
  | v :: rest =>
      String (hexDigit (N.shiftr (Byte.to_N v) 4))
        (String (hexDigit (N.land (Byte.to_N v) 15)) (EncodeToString rest))
  end.

(** The value of a hexadecimal digit of either case, the table
    [reverseHexTable]. *)
Definition fromHexChar (c : ascii) : option N :=
  let n := N_of_ascii c in
  if ((48 <=? n) && (n <=? 57))%N then Some (n - 48)%N
  else if ((97 <=? n) && (n <=? 102))%N then Some (n - 97 + 10)%N
  else if ((65 <=? n) && (n <=? 70))%N then Some (n - 65 + 10)%N
  else None.

(** [hex.ErrLength] and [hex.InvalidByteError] (the message of the latter
    also renders the byte, which is left out here). *)
Definition ErrLength : Go.error := Go.errors_New "encoding/hex: odd length hex string".
Definition InvalidByteError (c : ascii) : Go.error := Go.errors_New "encoding/hex: invalid byte".

Definition joinByte (a b : N) : byte :=
  match Byte.of_N (N.lor (N.shiftl a 4) b) with
  | Some v => v
  | None => x00
  end.

(** [hex.DecodeString]: the bytes decoded before the first error, and the
    error.  A bad digit is reported before an odd length. *)
Fixpoint DecodeString (s : string) : list byte * option Go.error :=
  match s with
  | EmptyString => ([], None)
  | String p EmptyString =>
      match fromHexChar p with
      | None => ([], Some (InvalidByteError p))
      | Some _ => ([], Some ErrLength)
      end
  | String p (String q rest) =>
      match fromHexChar p, fromHexChar q with
      | None, _ => ([], Some (InvalidByteError p))
      | Some _, None => ([], Some (InvalidByteError q))
      | Some a, Some b =>
          let '(out, err) := DecodeString rest in (joinByte a b :: out, err)
      end
  end.

End Hex.

(** ** Package crypto/des: the Data Encryption Standard on one block

    The Go standard library is no part of the files under study.  The
    cipher is written here as FIPS 46-3 states it, on bits numbered from
    the most significant one; the library computes the same function with
    tables of its own. *)
Module DES.

Definition BlockSize : Z := 8.

(** Bits of a byte and of a byte slice, most significant first. *)
Definition bits_of_byte (b : byte) : list bool :=
  let '(b0, (b1, (b2, (b3, (b4, (b5, (b6, b7))))))) := Byte.to_bits b in
  [b7; b6; b5; b4; b3; b2; b1; b0].

Definition bits_of_bytes (bs : list byte) : list bool :=
  flat_map bits_of_byte bs.

Fixpoint bytes_of_bits (bits : list bool) : list byte :=
  match bits with
  | b7 :: b6 :: b5 :: b4 :: b3 :: b2 :: b1 :: b0 :: rest =>
      Byte.of_bits (b0, (b1, (b2, (b3, (b4, (b5, (b6, b7))))))) :: bytes_of_bits rest
  | _ => []
  end.

(** Output bit k is the input bit that the table names at place k
    (tables count from 1). *)
Definition permute (table : list nat) (bits : list bool) : list bool :=
  List.map (fun p => nth (p - 1)%nat bits false) table.

Definition IP : list nat :=
  [58; 50; 42; 34; 26; 18; 10; 2;  60; 52; 44; 36; 28; 20; 12; 4;
   62; 54; 46; 38; 30; 22; 14; 6;  64; 56; 48; 40; 32; 24; 16; 8;
   57; 49; 41; 33; 25; 17;  9; 1;  59; 51; 43; 35; 27; 19; 11; 3;
   61; 53; 45; 37; 29; 21; 13; 5;  63; 55; 47; 39; 31; 23; 15; 7]%nat.

Definition FP : list nat :=
  [40; 8; 48; 16; 56; 24; 64; 32;  39; 7; 47; 15; 55; 23; 63; 31;
   38; 6; 46; 14; 54; 22; 62; 30;  37; 5; 45; 13; 53; 21; 61; 29;
   36; 4; 44; 12; 52; 20; 60; 28;  35; 3; 43; 11; 51; 19; 59; 27;
   34; 2; 42; 10; 50; 18; 58; 26;  33; 1; 41;  9; 49; 17; 57; 25]%nat.

Definition E : list nat :=
  [32;  1;  2;  3;  4;  5;   4;  5;  6;  7;  8;  9;
    8;  9; 10; 11; 12; 13;  12; 13; 14; 15; 16; 17;
   16; 17; 18; 19; 20; 21;  20; 21; 22; 23; 24; 25;
   24; 25; 26; 27; 28; 29;  28; 29; 30; 31; 32;  1]%nat.

Definition P : list nat :=
  [16;  7; 20; 21; 29; 12; 28; 17;   1; 15; 23; 26;  5; 18; 31; 10;
    2;  8; 24; 14; 32; 27;  3;  9;  19; 13; 30;  6; 22; 11;  4; 25]%nat.

Definition PC1 : list nat :=
  [57; 49; 41; 33; 25; 17;  9;   1; 58; 50; 42; 34; 26; 18;
   10;  2; 59; 51; 43; 35; 27;  19; 11;  3; 60; 52; 44; 36;
   63; 55; 47; 39; 31; 23; 15;   7; 62; 54; 46; 38; 30; 22;
   14;  6; 61; 53; 45; 37; 29;  21; 13;  5; 28; 20; 12;  4]%nat.

Definition PC2 : list nat :=
  [14; 17; 11; 24;  1;  5;   3; 28; 15;  6; 21; 10;
   23; 19; 12;  4; 26;  8;  16;  7; 27; 20; 13;  2;
   41; 52; 31; 37; 47; 55;  30; 40; 51; 45; 33; 48;
   44; 49; 39; 56; 34; 53;  46; 42; 50; 36; 29; 32]%nat.

Definition ksRotations : list nat :=
  [1; 1; 2; 2; 2; 2; 2; 2; 1; 2; 2; 2; 2; 2; 2; 1]%nat.

(** The eight selection functions, each four rows of sixteen values. *)
Definition sBoxes : list (list N) :=
  [ [14;  4; 13;  1;  2; 15; 11;  8;  3; 10;  6; 12;  5;  9;  0;  7;
      0; 15;  7;  4; 14;  2; 13;  1; 10;  6; 12; 11;  9;  5;  3;  8;
      4;  1; 14;  8; 13;  6;  2; 11; 15; 12;  9;  7;  3; 10;  5;  0;
     15; 12;  8;  2;  4;  9;  1;  7;  5; 11;  3; 14; 10;  0;  6; 13];
    [15;  1;  8; 14;  6; 11;  3;  4;  9;  7;  2; 13; 12;  0;  5; 10;
      3; 13;  4;  7; 15;  2;  8; 14; 12;  0;  1; 10;  6;  9; 11;  5;
      0; 14;  7; 11; 10;  4; 13;  1;  5;  8; 12;  6;  9;  3;  2; 15;
     13;  8; 10;  1;  3; 15;  4;  2; 11;  6;  7; 12;  0;  5; 14;  9];
    [10;  0;  9; 14;  6;  3; 15;  5;  1; 13; 12;  7; 11;  4;  2;  8;
     13;  7;  0;  9;  3;  4;  6; 10;  2;  8;  5; 14; 12; 11; 15;  1;
     13;  6;  4;  9;  8; 15;  3;  0; 11;  1;  2; 12;  5; 10; 14;  7;
      1; 10; 13;  0;  6;  9;  8;  7;  4; 15; 14;  3; 11;  5;  2; 12];
    [ 7; 13; 14;  3;  0;  6;  9; 10;  1;  2;  8;  5; 11; 12;  4; 15;
     13;  8; 11;  5;  6; 15;  0;  3;  4;  7;  2; 12;  1; 10; 14;  9;
     10;  6;  9;  0; 12; 11;  7; 13; 15;  1;  3; 14;  5;  2;  8;  4;
      3; 15;  0;  6; 10;  1; 13;  8;  9;  4;  5; 11; 12;  7;  2; 14];
    [ 2; 12;  4;  1;  7; 10; 11;  6;  8;  5;  3; 15; 13;  0; 14;  9;
     14; 11;  2; 12;  4;  7; 13;  1;  5;  0; 15; 10;  3;  9;  8;  6;
      4;  2;  1; 11; 10; 13;  7;  8; 15;  9; 12;  5;  6;  3;  0; 14;
     11;  8; 12;  7;  1; 14;  2; 13;  6; 15;  0;  9; 10;  4;  5;  3];
    [12;  1; 10; 15;  9;  2;  6;  8;  0; 13;  3;  4; 14;  7;  5; 11;
     10; 15;  4;  2;  7; 12;  9;  5;  6;  1; 13; 14;  0; 11;  3;  8;
      9; 14; 15;  5;  2;  8; 12;  3;  7;  0;  4; 10;  1; 13; 11;  6;
      4;  3;  2; 12;  9;  5; 15; 10; 11; 14;  1;  7;  6;  0;  8; 13];
    [ 4; 11;  2; 14; 15;  0;  8; 13;  3; 12;  9;  7;  5; 10;  6;  1;
     13;  0; 11;  7;  4;  9;  1; 10; 14;  3;  5; 12;  2; 15;  8;  6;
      1;  4; 11; 13; 12;  3;  7; 14; 10; 15;  6;  8;  0;  5;  9;  2;
      6; 11; 13;  8;  1;  4; 10;  7;  9;  5;  0; 15; 14;  2;  3; 12];
    [13;  2;  8;  4;  6; 15; 11;  1; 10;  9;  3; 14;  5;  0; 12;  7;
      1; 15; 13;  8; 10;  3;  7;  4; 12;  5;  6; 11;  0; 14;  9;  2;
      7; 11;  4;  1;  9; 12; 14;  2;  0;  6; 10; 13; 15;  3;  5;  8;
      2;  1; 14;  7;  4; 10;  8; 13; 15; 12;  9;  0;  3;  5;  6; 11] ]%N.

(** Bitwise exclusive or; the result is as long as the first operand. *)
Fixpoint xor_bits (a b : list bool) : list bool :=
  match a, b with
  | x :: a', y :: b' => xorb x y :: xor_bits a' b'
  | _, [] => a
  | [], _ => []
  end.

Definition bit (b : bool) : nat := if b then 1%nat else 0%nat.

(** One selection function on six bits: the outer two pick the row, the
    inner four the column; the value comes out as four bits. *)
Definition select (box : list N) (six : list bool) : list bool :=
  match six with
  | [b1; b2; b3; b4; b5; b6] =>
      let row := (2 * bit b1 + bit b6)%nat in
      let col := (8 * bit b2 + 4 * bit b3 + 2 * bit b4 + bit b5)%nat in
      let v := nth (16 * row + col)%nat box 0%N in
      [N.testbit v 3; N.testbit v 2; N.testbit v 1; N.testbit v 0]
  | _ => []
  end.

Fixpoint substitute (boxes : list (list N)) (bits : list bool) : list bool :=
  match boxes with
  | [] => []
  | box :: boxes' => select box (firstn 6 bits) ++ substitute boxes' (skipn 6 bits)
  end.

(** The cipher function f(R, K). *)
Definition feistel (r k : list bool) : list bool :=
  permute P (substitute sBoxes (xor_bits (permute E r) k)).

(** One round on the halves (L, R). *)
Definition round (lr : list bool * list bool) (k : list bool) : list bool * list bool :=
  (snd lr, xor_bits (fst lr) (feistel (snd lr) k)).

(** Sixteen rounds between the initial permutation and its inverse, the
    halves exchanged before the latter. *)
Definition cryptBits (subkeys : list (list bool)) (block : list bool) : list bool :=
  let b := permute IP block in
  let lr := fold_left round subkeys (firstn 32 b, skipn 32 b) in
  permute FP (snd lr ++ fst lr).

Definition rotl (n : nat) (l : list bool) : list bool := skipn n l ++ firstn n l.

Fixpoint schedule (rotations : list nat) (c d : list bool) : list (list bool) :=
  match rotations with
  | [] => []
  | n :: rest =>
      let c' := rotl n c in
      let d' := rotl n d in
      permute PC2 (c' ++ d') :: schedule rest c' d'
  end.

(** The cipher made by [NewCipher]: its sixteen subkeys. *)
Record desCipher : Type := mkCipher {
  subkeys : list (list bool)
}.

Definition generateSubkeys (key : list byte) : list (list bool) :=
  let cd := permute PC1 (bits_of_bytes key) in
  schedule ksRotations (firstn 28 cd) (skipn 28 cd).

Definition KeySizeError : Go.error := Go.errors_New "crypto/des: invalid key size".

(** [des.NewCipher]: a key of eight bytes, or [KeySizeError]. *)
Definition NewCipher (key : list byte) : desCipher + Go.error :=
  if Go.len key =? 8 then inl (mkCipher (generateSubkeys key)) else inr KeySizeError.

Definition cryptBlock (ks : list (list bool)) (src : list byte) : list byte :=
  bytes_of_bits (cryptBits ks (bits_of_bytes (firstn 8 src))).

(** [block.Encrypt(dst, src)]: [dst] afterwards. *)
Definition Encrypt (c : desCipher) (dst src : list byte) : Go.outcome (list byte) :=
  if Go.len src <? BlockSize then Go.Panic "crypto/des: input not full block"
  else if Go.len dst <? BlockSize then Go.Panic "crypto/des: output not full block"
  else Go.Ret (cryptBlock (subkeys c) src ++ skipn 8 dst).

(** [block.Decrypt(dst, src)]: the same rounds, the subkeys reversed. *)
Definition Decrypt (c : desCipher) (dst src : list byte) : Go.outcome (list byte) :=
  if Go.len src <? BlockSize then Go.Panic "crypto/des: input not full block"
  else if Go.len dst <? BlockSize then Go.Panic "crypto/des: output not full block"
  else Go.Ret (cryptBlock (rev (subkeys c)) src ++ skipn 8 dst).

End DES.

(** ** Package speedtest: filters and selection of [speedtest.go] *)
Module Speedtest.
Import Defs.

(** *** The credential codec *)

(** [bytes.Repeat b count]. *)
Definition bytes_Repeat (b : list byte) (count : Z) : Go.outcome (list byte) :=
  if count <? 0 then Go.Panic "bytes: negative Repeat count"
  else Go.Ret (List.concat (repeat b (Z.to_nat count))).

Definition PKCS5Padding (ciphertext : list byte) (blockSize : Z) : Go.outcome (list byte) :=
  if blockSize =? 0 then Go.Panic "integer divide by zero"
  else
    let padding := Go.wrap_int (blockSize - Z.rem (Go.len ciphertext) blockSize) in
    let* padtext := bytes_Repeat [Go.byte_of_int padding] padding in
    Go.Ret (ciphertext ++ padtext).

Definition PKCS5UnPadding (origData : list byte) : Go.outcome (list byte) :=
  let length := Go.len origData in
  match origData !! Z.to_nat (length - 1) with
  | None => Go.Panic "index out of range"
  | Some b =>
      let unpadding := Go.int_of_byte b in
      if length - unpadding <? 0 then Go.Panic "slice bounds out of range"
      else Go.Ret (firstn (Z.to_nat (length - unpadding)) origData)
  end.

(** The loop [for len(data) > 0] shared by [Encrypt] and [Decrypt], for
    the block size 8 of the cipher: [crypt dst src] is the block call,
    the result is what the window [dst] of [out] holds afterwards.  Both
    callers check [len(data)%bs] first, so [data[:bs]] is a full block. *)
Equations? blockLoop (crypt : list byte -> list byte -> Go.outcome (list byte))
    (data dst : list byte) : Go.outcome (list byte) by wf (List.length data) lt :=
  blockLoop crypt [] dst := Go.Ret dst;
  blockLoop crypt (b :: data') dst :=
    Go.bind (crypt dst (firstn 8 (b :: data'))) (fun dst' =>
    Go.bind (blockLoop crypt (skipn 8 (b :: data')) (skipn 8 dst')) (fun rest =>
    Go.Ret (firstn 8 dst' ++ rest))).
Proof.
  cbn [skipn]. rewrite length_skipn. cbn [List.length]. lia.
Qed.

Definition Encrypt (src key : string) : Go.outcome string :=
  let data := list_byte_of_string src in
  let keyByte := list_byte_of_string key in
  match DES.NewCipher keyByte with
  | inr err => Go.Panic (Go.Error err)
  | inl block =>
      let bs := DES.BlockSize in
      let* data := PKCS5Padding data bs in
      if negb (Z.rem (Go.len data) bs =? 0) then Go.Panic "Need a multiple of the blocksize"
      else
        let out := repeat x00 (List.length data) in
        let* out := blockLoop (DES.Encrypt block) data out in
        Go.Ret (Hex.EncodeToString out)
  end.

Definition Decrypt (src key : string) : Go.outcome (list byte) :=
  match Hex.DecodeString src with
  | (_, Some err) => Go.Panic (Go.Error err)
  | (data, None) =>
      let keyByte := list_byte_of_string key in
      match DES.NewCipher keyByte with
      | inr err => Go.Panic (Go.Error err)
      | inl block =>
          let bs := DES.BlockSize in
          if negb (Z.rem (Go.len data) bs =? 0) then
            Go.Panic "crypto/cipher: input not full blocks"
          else
            let out := repeat x00 (List.length data) in
            let* out := blockLoop (DES.Decrypt block) data out in
            PKCS5UnPadding out
      end
  end.

(** *** Filters *)

(** contains is a helper function to check if a string is in a string array *)
Fixpoint contains (arr : list string) (val : string) : bool :=
  match arr with
  | [] => false
  | v :: rest => if String.eqb v val then true else contains rest val
  end.

Fixpoint checkProv (arr : list ProvinceInfo) (val : string) : bool :=
  match arr with
  | [] => false
  | v :: rest =>
      if String.eqb (Short v) val || String.eqb (ProvName v) val || Go.Contains val (Short v)
      then true
      else checkProv rest val
  end.

(** The [switch server.Type] that both loops of [preprocessServers] run
    to name a server: [P<id>], [W<id>] or the bare id. *)
Definition serverKey (server : Server) : string :=
  match Typ server with
  | Perception => ("P" ++ Go.Itoa (ID server))%string
  | WirelessSpeed => ("W" ++ Go.Itoa (ID server))%string
  | _ => Go.Itoa (ID server)
  end.

(** The loop over [servers] under [len(excludes) > 0]: [ret] after the
    servers seen so far. *)
Definition excludeLoop (excludes : list string) (servers : list Server) : list Server :=
  fold_left (fun ret server =>
               if contains excludes (serverKey server) then ret else ret ++ [server])
            servers [].

(** The loop over [servers] under [len(specific) > 0 && !contains(specific, "-1")]. *)
Definition specificLoop (specific : list string) (servers : list Server) : list Server :=
  fold_left (fun ret server =>
               if contains specific (serverKey server) then ret ++ [server] else ret)
            servers [].

(** preprocessServers makes some needed modifications to the servers
    fetched.  The two results of the Go function are the pair; the [nil]
    slice is the empty list. *)
Definition preprocessServers (servers : list Server) (excludes specific : list string)
    (filter : bool) : list Server * option Go.error :=
  if (0 <? Go.len excludes) && (0 <? Go.len specific) then
    ([], Some (Go.errors_New "either --exclude or --specific can be used"))
  else if filter then
    if 0 <? Go.len excludes then (excludeLoop excludes servers, None)
    else if (0 <? Go.len specific) && negb (contains specific "-1") then
      (specificLoop specific servers, None)
    else (servers, None)
  else (servers, None).

(** *** Selection of the fastest server, the tail of [SpeedTest] *)

Record PingJob : Type := mkPingJob {
  JobIndex : Z;
  JobServer : Server
}.

Record PingResult : Type := mkPingResult {
  Index : Z;
  Ping : Float64.float64
}.

(** What the two external probes of [pingWorker] report for one job:
    [IsUp] false, [ICMPPingAndJitter] failing, or a latency. *)
Inductive probe : Type :=
| Down
| PingError
| Pong (ping : Float64.float64).

(** One job of [pingWorker]: a result goes to the [results] channel only
    when the server is up and the ping succeeds. *)
Definition pingWorkerJob (job : PingJob) (p : probe) : option PingResult :=
  match p with
  | Pong ping => Some (mkPingResult (JobIndex job) ping)
  | Down | PingError => None
  end.

(** The [Loop:] of [SpeedTest]: [pingList[result.Index] = result.Ping] for
    the results in the order they arrive. *)
Definition collect (arrivals : list PingResult) : gmap Z Float64.float64 :=
  fold_left (fun pingList result => <[Index result := Ping result]> pingList) arrivals ∅.

(** [pingList[idx]]: the zero value when the key is missing. *)
Definition pingAt (pingList : gmap Z Float64.float64) (idx : Z) : Float64.float64 :=
  default Float64.zero (pingList !! idx).

(** The body of [for idx, ping := range pingList]. *)
Definition fastestStep (pingList : gmap Z Float64.float64) (serverIdx : Z)
    (entry : Z * Float64.float64) : Z :=
  if Float64.ltb Float64.zero (snd entry) && Float64.leb (snd entry) (pingAt pingList serverIdx)
  then fst entry
  else serverIdx.

(** The whole [range] loop from [var serverIdx int]; [order] lists the
    entries of the map in the order the loop visits them. *)
Definition fastestIndex (pingList : gmap Z Float64.float64) (order : list (Z * Float64.float64)) : Z :=
  fold_left (fastestStep pingList) order 0.

(** Go fixes no order for [range] over a map: each entry is visited once,
    in any order. *)
Definition rangeOrder (pingList : gmap Z Float64.float64) (order : list (Z * Float64.float64)) : Prop :=
  order ≡ₚ map_to_list pingList.

(** From [if len(pingList) == 0] to the argument of [doSpeedTest]: the
    server the speed test runs on. *)
Definition selectServer (servers : list Server) (pingList : gmap Z Float64.float64)
    (order : list (Z * Float64.float64)) : Go.outcome Server :=
  if Z.of_nat (size pingList) =? 0 then
    Go.Fatal "No server is currently available, please try again later."
  else
    let serverIdx := fastestIndex pingList order in
    if (serverIdx <? 0) || (Go.len servers <=? serverIdx) then Go.Panic "index out of range"
    else match servers !! Z.to_nat serverIdx with
         | Some server => Go.Ret server
         | None => Go.Panic "index out of range"
         end.

(** *** Random tokens and the registration request *)

Definition defaultTok : string :=
  "abcdefghijklmnopqrstuvwxyzABCDEFGHIJKLMNOPQRSTUVWXYZ0123456789".

(** [r.Intn(n)] on the generator that [GetRandom] seeds from the clock.
    What the generator yields is an argument: call number [i] returns
    [draw i] brought into the range from 0 to n - 1. *)
Definition Intn (draw : nat -> Z) (i : nat) (n : Z) : Go.outcome Z :=
  if n <=? 0 then Go.Panic "invalid argument to Intn" else Go.Ret (draw i mod n).

(** The loop [for i := 0; i < l; i++] of [GetRandom], [count] rounds from
    round [i] on. *)
Fixpoint randomLoop (bs : list byte) (draw : nat -> Z) (i count : nat) (res : list byte)
  : Go.outcome (list byte) :=
  match count with
  | O => Go.Ret res
  | S count' =>
      let* k := Intn draw i (Go.len bs) in
      match bs !! Z.to_nat k with
      | None => Go.Panic "index out of range"
      | Some b => randomLoop bs draw (S i) count' (res ++ [b])
      end
  end.

Definition GetRandom (draw : nat -> Z) (tok pre : string) (l : Z) : Go.outcome string :=
  let tok := if String.eqb tok "" then defaultTok else tok in
  let bs := list_byte_of_string tok in
  let* res := randomLoop bs draw 0 (Z.to_nat l) [] in
  Go.Ret (pre ++ string_of_list_byte res)%string.

(** [s[:n]] on a string. *)
Definition sliceTo (s : string) (n : Z) : Go.outcome string :=
  if (n <? 0) || (Go.lenString s <? n) then Go.Panic "slice bounds out of range"
  else Go.Ret (String.substring 0 (Z.to_nat n) s).

Definition apiPerceptionBaseUrl : string := "https://ux.caict.ac.cn".

(** The double quote of the JSON text. *)
Definition dquote : string := String (ascii_of_nat 34) EmptyString.

(** [Register] up to the text of the request: the device id, the key, the
    encrypted payload and the address.  Each call of [GetRandom] has a
    generator of its own.  Sending the request is not modelled. *)
Record registration : Type := mkRegistration {
  did : string;
  key : string;
  pl : string;
  uri : string
}.

Definition registerRequest (drawDid drawKey : nat -> Z) : Go.outcome registration :=
  let* did := GetRandom drawDid "0123456789abcdef" "" 16 in
  let* key := GetRandom drawKey "0123456789" "taier" 6 in
  let* key8 := sliceTo key 8 in
  let* pl := Encrypt ("{" ++ dquote ++ "deviceId" ++ dquote ++ ": " ++ dquote ++ did
                          ++ dquote ++ "}")%string key8 in
  Go.Ret (mkRegistration did key pl
            (apiPerceptionBaseUrl ++ "/screen/taier/app/equipment/info?deviceId=" ++ did
               ++ "&key=" ++ key ++ "&json=" ++ pl)%string).

(** *** Provinces and backend families *)

(** The zero value of [defs.ProvinceInfo]. *)
Definition zeroProvince : ProvinceInfo := mkProvinceInfo "" "" "" "" "" "".

(** The loop of [getProvInfo]: the first province that matches, or the
    zero value. *)
Fixpoint firstProvince (provinces : list ProvinceInfo) (name : string) : ProvinceInfo :=
  match provinces with
  | [] => zeroProvince
  | p :: rest =>
      if String.eqb (Short p) name || Go.Contains (ProvName p) name
         || Go.Contains name (Short p)
      then p
      else firstProvince rest name
  end.

Definition getProvInfo (provinces : list ProvinceInfo) (name : string) : ProvinceInfo :=
  let prov := if negb (String.eqb name "") then firstProvince provinces name
              else zeroProvince in
  if negb (String.eqb (ProvID prov) "") then prov
  else mkProvinceInfo "31" "sh" "上海" "上海市" "121.473667" "31.230525".

(** [hasGlobal, hasPerception, hasWireless] of [SpeedTest], from the
    entries of [--server]: all three when there is none. *)
Definition familyStep (flags : bool * bool * bool) (s : string) : bool * bool * bool :=
  let '(hasGlobal, hasPerception, hasWireless) := flags in
  if String.prefix "P" s then (hasGlobal, true, hasWireless)
  else if String.prefix "W" s then (hasGlobal, hasPerception, true)
  else (true, hasPerception, hasWireless).

Definition serverFamilies (specific : list string) : bool * bool * bool :=
  if 0 <? Go.len specific then fold_left familyStep specific (false, false, false)
  else (true, true, true).

End Speedtest.

(* ===================================================================== *)
(** * Part II: properties                                                 *)
(* ===================================================================== *)

(** ** Strings and slices *)
Module GoFacts.
Import Go.

(** [substr] occurs in [s]: some bytes, then [substr], then the rest. *)
Definition occursIn (substr s : string) : Prop :=
  exists before after : string, s = (before ++ substr ++ after)%string.

Lemma prefix_split (p s : string) :
  String.prefix p s = true <-> exists after : string, s = (p ++ after)%string.
Proof.
  revert s. induction p as [|c p IH]; intros s; cbn.
  - destruct s; split; eauto.
  - destruct s as [|d s]; cbn.
    + split; [discriminate | intros [after H]; discriminate].
    + destruct (Ascii.ascii_dec c d) as [->|Hcd].
      * rewrite IH. split; intros [after H]; exists after.
        -- subst s. reflexivity.
        -- cbn in H. injection H as H. exact H.
      * split; [discriminate | intros [after H]; cbn in H; injection H as H _].
        symmetry in H. contradiction.
Qed.

Lemma Contains_occursIn (s substr : string) :
  Contains s substr = true <-> occursIn substr s.
Proof.
  induction s as [|c s IH]; cbn [Contains].
  - destruct (String.prefix substr EmptyString) eqn:Hp.
    + split; [intros _ | reflexivity].
      apply prefix_split in Hp as [after H]. exists EmptyString, after. exact H.
    + split; [discriminate | intros (before & after & H)].
      destruct before; cbn in H.
      * assert (String.prefix substr EmptyString = true) by (apply prefix_split; eauto).
        congruence.
      * discriminate.
  - destruct (String.prefix substr (String c s)) eqn:Hp.
    + split; [intros _ | reflexivity].
      apply prefix_split in Hp as [after H]. exists EmptyString, after. exact H.
    + rewrite IH. split.
      * intros (before & after & ->). exists (String c before), after. reflexivity.
      * intros (before & after & H). destruct before as [|d before]; cbn in H.
        -- assert (String.prefix substr (String c s) = true) by (apply prefix_split; eauto).
           congruence.
        -- injection H as _ ->. exists before, after. reflexivity.
Qed.

Lemma len_nonneg {A : Type} (l : list A) : 0 <= len l.
Proof. unfold len. lia. Qed.

End GoFacts.

(** ** The server filters *)
Module FilterFacts.
Import Go Defs Speedtest GoFacts.
Local Open Scope string_scope.

Lemma contains_In (arr : list string) (val : string) :
  contains arr val = true <-> In val arr.
Proof.
  induction arr as [|v rest IH]; cbn.
  - split; [discriminate | tauto].
  - destruct (String.eqb_spec v val) as [->|Hne].
    + split; auto.
    + rewrite IH. split; [auto | intros [H|H]; [contradiction | exact H]].
Qed.

(** The three ways one province row matches a field. *)
Definition provMatches (v : ProvinceInfo) (val : string) : Prop :=
  Short v = val \/ ProvName v = val \/ occursIn (Short v) val.

Lemma provMatches_bool (v : ProvinceInfo) (val : string) :
  String.eqb (Short v) val || String.eqb (ProvName v) val || Contains val (Short v) = true
  <-> provMatches v val.
Proof.
  unfold provMatches.
  rewrite !orb_true_iff, !String.eqb_eq, Contains_occursIn. tauto.
Qed.

Lemma checkProv_spec (arr : list ProvinceInfo) (val : string) :
  checkProv arr val = true <-> exists v, In v arr /\ provMatches v val.
Proof.
  induction arr as [|v rest IH]; cbn [checkProv].
  - split; [discriminate | intros (v & [] & _)].
  - destruct (String.eqb (Short v) val || String.eqb (ProvName v) val
              || Contains val (Short v)) eqn:Hm.
    + split; [intros _ | reflexivity].
      exists v. split; [left; reflexivity | apply provMatches_bool, Hm].
    + rewrite IH. split.
      * intros (w & Hin & Hw). exists w. split; [right; exact Hin | exact Hw].
      * intros (w & [<-|Hin] & Hw).
        -- apply provMatches_bool in Hw. congruence.
        -- exists w. split; assumption.
Qed.

(** A filter row that gives only the listed fields; the others hold the
    zero value, the empty string. *)
Definition prov (short name : string) : ProvinceInfo :=
  mkProvinceInfo "" "" short name "" "".

(** The literals of the examples are UTF-8: three bytes a character. *)
Example literal_bytes :
  list_byte_of_string "沪" = [xe6; xb2; xaa] /\
  list_byte_of_string "京" = [xe4; xba; xac] /\
  list_byte_of_string "上海" = [xe4; xb8; x8a; xe6; xb5; xb7] /\
  list_byte_of_string "上海市" = [xe4; xb8; x8a; xe6; xb5; xb7; xe5; xb8; x82].
Proof. repeat split. Qed.

(** C4, the claim as stated fails: the short code 沪 neither equals the
    field 上海 nor occurs in it, and the row has no full name, so
    [checkProv] answers false where the claim says true. *)
Lemma checkProv_hu_shanghai_false :
  checkProv [prov "沪" ""] "上海" = false.
Proof. reflexivity. Qed.

(** C4 (amended): [checkProv arr val] is true exactly when some row's short
    code equals the field, or its full name equals the field, or its short
    code occurs in the field.  On the examples: the row (沪, 上海市)
    matches the field 上海市 by its full name; the row with short code 沪
    alone does not match 上海; the short code 上海 matches 上海市 as a
    substring; the short code 京 does not match 上海市. *)
Theorem checkProv_matches :
  (forall (arr : list ProvinceInfo) (val : string),
      checkProv arr val = true <->
      exists v, In v arr /\
        (Short v = val \/ ProvName v = val \/ occursIn (Short v) val)) /\
  checkProv [prov "沪" "上海市"] "上海市" = true /\
  checkProv [prov "沪" ""] "上海" = false /\
  checkProv [prov "上海" ""] "上海市" = true /\
  checkProv [prov "京" ""] "上海市" = false.
Proof.
  split; [exact checkProv_spec | repeat split].
Qed.

(** C7: with both the exclude list and the include list non-empty,
    [preprocessServers] returns no servers and the configuration error,
    whatever the servers, the entries of the lists and the filter flag. *)
Theorem preprocessServers_exclusive
    (servers : list Server) (excludes specific : list string) (filter : bool) :
  0 < len excludes -> 0 < len specific ->
  preprocessServers servers excludes specific filter
  = ([], Some (errors_New "either --exclude or --specific can be used")).
Proof.
  intros He Hs. unfold preprocessServers.
  apply Z.ltb_lt in He, Hs. rewrite He, Hs. reflexivity.
Qed.

Definition sampleServer (id : Z) (t : ServerType) : Server :=
  mkServer id "node" "192.0.2.1" "" "http://node.example" "" "上海" "上海" "ISP" t false.

Lemma preprocessServers_exclusive_witness :
  preprocessServers [sampleServer 3 Standard; sampleServer 3 Perception] ["3"] ["P3"; "-1"] false
  = ([], Some (errors_New "either --exclude or --specific can be used")).
Proof.
  apply (preprocessServers_exclusive
           [sampleServer 3 Standard; sampleServer 3 Perception] ["3"] ["P3"; "-1"] false);
    reflexivity.
Defined.

(** C8: with filtering on, no excludes, and "-1" among the entries of the
    include list, [preprocessServers] returns the servers it was given and
    no error, whatever else the include list holds. *)
Theorem preprocessServers_sentinel (servers : list Server) (specific : list string) :
  In "-1" specific ->
  preprocessServers servers [] specific true = (servers, None).
Proof.
  intros Hin. unfold preprocessServers.
  apply contains_In in Hin. rewrite Hin.
  cbn. rewrite andb_false_r. reflexivity.
Qed.

Lemma preprocessServers_sentinel_witness :
  preprocessServers [sampleServer 1 Standard; sampleServer 2 WirelessSpeed] [] ["W2"; "-1"; "7"] true
  = ([sampleServer 1 Standard; sampleServer 2 WirelessSpeed], None).
Proof.
  apply (preprocessServers_sentinel
           [sampleServer 1 Standard; sampleServer 2 WirelessSpeed] ["W2"; "-1"; "7"]).
  cbn. right. left. reflexivity.
Defined.

End FilterFacts.

(** ** Selection of the fastest server *)
Module SelectionFacts.
Import Go Defs Speedtest.

(** The jobs sent for a candidate list, and the results the workers emit
    for them when the probes answer as [probes] says, by candidate. *)
Definition jobsOf (servers : list Server) : list PingJob :=
  imap (fun idx server => mkPingJob (Z.of_nat idx) server) servers.

Definition emitted (servers : list Server) (probes : list probe) : list PingResult :=
  omap (fun jp => pingWorkerJob (fst jp) (snd jp)) (zip (jobsOf servers) probes).

Definition ms (n : Z) : Float64.float64 := Float64.of_int n.

Lemma positive_not_le_zero (ping : Float64.float64) :
  Float64.ltb Float64.zero ping = true -> Float64.leb ping Float64.zero = false.
Proof.
  destruct ping as [sgn|sgn| |sgn m e]; try destruct sgn; cbn; congruence.
Qed.

Lemma fastestStep_missing_zero (pingList : gmap Z Float64.float64) (entry : Z * Float64.float64) :
  pingList !! 0 = None -> fastestStep pingList 0 entry = 0.
Proof.
  intros Hnone. unfold fastestStep, pingAt. rewrite Hnone. cbn [default].
  destruct (Float64.ltb Float64.zero (snd entry)) eqn:Hpos; [|reflexivity].
  rewrite (positive_not_le_zero _ Hpos). reflexivity.
Qed.

Lemma fastestIndex_missing_zero (pingList : gmap Z Float64.float64)
    (order : list (Z * Float64.float64)) :
  pingList !! 0 = None -> fastestIndex pingList order = 0.
Proof.
  intros Hnone. unfold fastestIndex.
  induction order as [|entry order IH]; cbn [fold_left]; [reflexivity|].
  rewrite fastestStep_missing_zero by exact Hnone. exact IH.
Qed.

Lemma selectServer_at (servers : list Server) (pingList : gmap Z Float64.float64)
    (order : list (Z * Float64.float64)) (idx : nat) (server : Server) :
  size pingList <> 0%nat ->
  fastestIndex pingList order = Z.of_nat idx ->
  servers !! idx = Some server ->
  selectServer servers pingList order = Ret server.
Proof.
  intros Hsize Hidx Hsrv. unfold selectServer.
  destruct (Z.eqb_spec (Z.of_nat (size pingList)) 0) as [H0|_]; [lia|].
  rewrite Hidx, Nat2Z.id, Hsrv.
  apply lookup_lt_Some in Hsrv.
  destruct (Z.ltb_spec (Z.of_nat idx) 0); [lia|].
  destruct (Z.leb_spec (len servers) (Z.of_nat idx)); [unfold len in *; lia|].
  reflexivity.
Qed.

(** The map collected from the two results of the example, whichever
    arrives first. *)
Lemma collect_two_results (arrivals : list PingResult) :
  arrivals ≡ₚ [mkPingResult 0 (ms 5); mkPingResult 1 (ms 3)] ->
  collect arrivals = <[1 := ms 3]> (<[0 := ms 5]> ∅).
Proof.
  intros Hperm. symmetry in Hperm.
  apply Permutation_length_2_inv in Hperm as [-> | ->]; cbn.
  - reflexivity.
  - apply insert_insert_ne. discriminate.
Qed.

(** C1: the candidates are three servers; the probes give 5 ms for
    index 0, 3 ms for index 1, and find index 2 down, so the workers emit
    two results.  In whichever order the results arrive and in whichever
    order the [range] loop visits the map, the loop ends with index 1 and
    the speed test runs on that server.  A visited entry replaces the
    current best exactly when its latency is above 0 and at most the
    latency recorded for the current best. *)
Theorem fastest_of_three_is_index_1
    (s0 s1 s2 : Server) (arrivals : list PingResult) (order : list (Z * Float64.float64)) :
  arrivals ≡ₚ emitted [s0; s1; s2] [Pong (ms 5); Pong (ms 3); Down] ->
  rangeOrder (collect arrivals) order ->
  fastestIndex (collect arrivals) order = 1 /\
  selectServer [s0; s1; s2] (collect arrivals) order = Ret s1 /\
  (forall pingList best idx ping,
      fastestStep pingList best (idx, ping)
      = if Float64.ltb Float64.zero ping && Float64.leb ping (pingAt pingList best)
        then idx else best).
Proof.
  intros Harr Horder.
  change (emitted [s0; s1; s2] [Pong (ms 5); Pong (ms 3); Down])
    with [mkPingResult 0 (ms 5); mkPingResult 1 (ms 3)] in Harr.
  apply collect_two_results in Harr. rewrite Harr in *. clear Harr.
  assert (Hidx : fastestIndex (<[1 := ms 3]> (<[0 := ms 5]> ∅)) order = 1).
  { unfold rangeOrder in Horder. symmetry in Horder.
    change (map_to_list (<[1 := ms 3]> (<[0 := ms 5]> ∅)))
      with [(1, ms 3); (0, ms 5)] in Horder.
    apply Permutation_length_2_inv in Horder as [-> | ->]; vm_compute; reflexivity. }
  split; [exact Hidx|]. split; [|reflexivity].
  apply (selectServer_at _ _ _ 1%nat); [vm_compute; discriminate | exact Hidx | reflexivity].
Qed.

Lemma fastest_of_three_is_index_1_witness :
  let s := FilterFacts.sampleServer in
  let arrivals := [mkPingResult 1 (ms 3); mkPingResult 0 (ms 5)] in
  fastestIndex (collect arrivals) (map_to_list (collect arrivals)) = 1 /\
  selectServer [s 10 Standard; s 11 Standard; s 12 Standard] (collect arrivals)
    (map_to_list (collect arrivals)) = Ret (s 11 Standard).
Proof.
  intros s arrivals.
  pose proof (fastest_of_three_is_index_1 (s 10 Standard) (s 11 Standard) (s 12 Standard)
                arrivals (map_to_list (collect arrivals))) as H.
  destruct H as (H1 & H2 & _).
  - apply perm_swap.
  - unfold rangeOrder. reflexivity.
  - split; [exact H1 | exact H2].
Defined.

(** C2: the best index starts at 0 and a missing key reads as latency 0.
    So when the map of results is not empty but has no entry for index 0,
    no visited entry replaces the best, whatever the latencies and the
    order of the visit: the loop ends with index 0, and the speed test runs
    on the first candidate, the one without a result. *)
Theorem fastest_is_index_0_without_its_result
    (servers : list Server) (s0 : Server)
    (pingList : gmap Z Float64.float64) (order : list (Z * Float64.float64)) :
  size pingList <> 0%nat ->
  pingList !! 0 = None ->
  rangeOrder pingList order ->
  servers !! 0%nat = Some s0 ->
  pingAt pingList 0 = Float64.zero /\
  fastestIndex pingList order = 0 /\
  selectServer servers pingList order = Ret s0.
Proof.
  intros Hsize Hnone _ Hs0.
  assert (Hidx : fastestIndex pingList order = 0)
    by (apply fastestIndex_missing_zero; exact Hnone).
  split; [unfold pingAt; rewrite Hnone; reflexivity|].
  split; [exact Hidx|].
  apply (selectServer_at _ _ _ 0%nat); assumption.
Qed.

Lemma fastest_is_index_0_without_its_result_witness :
  let s := FilterFacts.sampleServer in
  let pingList : gmap Z Float64.float64 := <[2 := ms 7]> (<[1 := ms 3]> ∅) in
  fastestIndex pingList (map_to_list pingList) = 0 /\
  selectServer [s 10 Standard; s 11 Standard; s 12 Standard] pingList (map_to_list pingList)
  = Ret (s 10 Standard).
Proof.
  intros s pingList.
  pose proof (fastest_is_index_0_without_its_result
                [s 10 Standard; s 11 Standard; s 12 Standard] (s 10 Standard)
                pingList (map_to_list pingList)) as H.
  destruct H as (_ & H1 & H2).
  - vm_compute. discriminate.
  - reflexivity.
  - unfold rangeOrder. reflexivity.
  - reflexivity.
  - split; [exact H1 | exact H2].
Defined.

End SelectionFacts.

(** ** The byte counter: totals and their reports *)
Module CounterFacts.
Import Go Defs GoFacts.
Local Open Scope string_scope.
Local Open Scope Z_scope.












(** A counter that has only been written to: [n] bytes in one buffer. *)
Definition written (n : Z) (m : bool) : BytesCounter :=
  snd (Write (SetMebi NewCounter m) (repeat x00 (Z.to_nat n))).

Lemma Total_written (n : Z) (m : bool) :
  0 <= n < 2 ^ 64 -> Total (written n m) = n.
Proof.
  intros Hn. unfold written, Write, Total, wrap_uint64, len. cbn.
  rewrite repeat_length, Z2Nat.id by lia. apply Z.mod_small. lia.
Qed.

(** C5, the code at the totals the claim names: a counter whose total is
    1000 bytes reports 125.00 bytes, not KB; the report changes to KB at
    a total of 8000 (8192 with [mebi]), eight times the base.  [MBytes]
    on a total of 8000000 bytes is 8, where [BytesHumanize] says 1.00 MB. *)
Theorem BytesHumanize_thresholds_are_eightfold :
  BytesHumanize (written 999 false) = "124.88 bytes" /\
  BytesHumanize (written 1000 false) = "125.00 bytes" /\
  BytesHumanize (written 7999 false) = "999.88 bytes" /\
  BytesHumanize (written 8000 false) = "1.00 KB" /\
  BytesHumanize (written 1023 true) = "127.88 bytes" /\
  BytesHumanize (written 1024 true) = "128.00 bytes" /\
  BytesHumanize (written 8191 true) = "1023.88 bytes" /\
  BytesHumanize (written 8192 true) = "1.00 KB" /\
  MBytes (mkCounter 0 8000000 [] None false 0) = Float64.of_int 8 /\
  BytesHumanize (mkCounter 0 8000000 [] None false 0) = "1.00 MB".
Proof. repeat split; vm_compute; reflexivity. Qed.



End CounterFacts.

(** ** The byte counter: reading the payload round and round *)
Module CyclingFacts.
Import Go Defs.

(** The bytes a read hands over: the first [n] of the buffer. *)
Definition delivered (res : list byte * Z * option error) : list byte :=
  firstn (Z.to_nat (snd (fst res))) (fst (fst res)).

(** One [Read] per buffer, each on the counter the one before left. *)
Fixpoint readAll (c : BytesCounter) (bufs : list (list byte))
  : outcome (list (list byte * Z * option error) * BytesCounter) :=
  match bufs with
  | [] => Ret ([], c)
  | p :: rest =>
      let* rc := Read c p in
      let* more := readAll (snd rc) rest in
      Ret (fst rc :: fst more, snd more)
  end.

Definition dataOf (results : list (list byte * Z * option error)) : list byte :=
  List.concat (List.map delivered results).

(** [k] bytes of the payload repeated without end, from offset [start]. *)
Definition cyclic (P : list byte) (start k : nat) : list byte :=
  List.map (fun j => nth ((start + j) mod List.length P)%nat P x00) (seq 0 k).

(** The counter serves the payload [P]: the reader reads [P] at the
    counter's position, which is inside the payload. *)
Record serving (P : list byte) (c : BytesCounter) : Prop := mkServing {
  serving_payload : payload c = P;
  serving_reader : reader c = Some (Bytes.mkReader P (pos c));
  serving_size : uploadSize c = len P;
  serving_pos : 0 <= pos c < len P;
  serving_int : len P < 2 ^ 63
}.

Lemma cyclic_length P start k : List.length (cyclic P start k) = k.
Proof. unfold cyclic. rewrite length_map, length_seq. reflexivity. Qed.

Lemma nth_cyclic P start k j :
  (j < k)%nat -> nth j (cyclic P start k) x00 = nth ((start + j) mod List.length P)%nat P x00.
Proof.
  intros Hj. unfold cyclic.
  rewrite (nth_indep _ x00 ((fun j => nth ((start + j) mod List.length P)%nat P x00) 0%nat))
    by (rewrite length_map, length_seq; exact Hj).
  rewrite (map_nth (fun j => nth ((start + j) mod List.length P)%nat P x00)).
  rewrite seq_nth by exact Hj. reflexivity.
Qed.

Lemma cyclic_app P start a b :
  cyclic P start (a + b) = cyclic P start a ++ cyclic P (start + a) b.
Proof.
  apply (nth_ext _ _ x00 x00).
  - rewrite length_app, !cyclic_length. reflexivity.
  - rewrite cyclic_length. intros j Hj. rewrite nth_cyclic by exact Hj.
    destruct (Nat.lt_ge_cases j a) as [Hlt|Hge].
    + rewrite app_nth1 by (rewrite cyclic_length; exact Hlt).
      rewrite nth_cyclic by exact Hlt. reflexivity.
    + rewrite app_nth2 by (rewrite cyclic_length; exact Hge).
      rewrite cyclic_length, nth_cyclic by lia.
      f_equal. f_equal. lia.
Qed.

Lemma cyclic_start_mod P start k :
  cyclic P (start mod List.length P) k = cyclic P start k.
Proof.
  apply (nth_ext _ _ x00 x00).
  - rewrite !cyclic_length. reflexivity.
  - rewrite cyclic_length. intros j Hj. rewrite !nth_cyclic by exact Hj.
    rewrite Nat.Div0.add_mod_idemp_l. reflexivity.
Qed.

(** A stretch of the payload that does not pass its end. *)
Lemma chunk_cyclic P start n :
  (start + n <= List.length P)%nat -> firstn n (skipn start P) = cyclic P start n.
Proof.
  intros Hle. apply (nth_ext _ _ x00 x00).
  - rewrite length_firstn, length_skipn, cyclic_length. lia.
  - rewrite length_firstn, length_skipn. intros j Hj.
    rewrite nth_cyclic by lia. rewrite nth_firstn.
    destruct (Nat.ltb_spec j n) as [_|Hge]; [|lia].
    rewrite nth_skipn, Nat.mod_small by lia. reflexivity.
Qed.

Lemma cyclic_whole P : cyclic P 0 (List.length P) = P.
Proof.
  rewrite <- chunk_cyclic by lia. cbn [skipn]. apply firstn_all.
Qed.

Lemma cyclic_twice P : cyclic P 0 (List.length P + List.length P) = P ++ P.
Proof.
  rewrite cyclic_app. cbn [Nat.add].
  rewrite <- (cyclic_start_mod P (List.length P)), Nat.Div0.mod_same.
  rewrite cyclic_whole. reflexivity.
Qed.

(** One [Read] on a serving counter: it hands over the next bytes of the
    payload, as many as the buffer holds or as remain before the end,
    returns no error, and leaves a serving counter. *)
Lemma Read_serving (P : list byte) (c : BytesCounter) (p : list byte) :
  serving P c ->
  let n := Z.min (len p) (len P - pos c) in
  exists p' c',
    Read c p = Ret ((p', n, None), c') /\
    firstn (Z.to_nat n) p' = cyclic P (Z.to_nat (pos c)) (Z.to_nat n) /\
    skipn (Z.to_nat n) p' = skipn (Z.to_nat n) p /\
    serving P c' /\
    pos c' = (pos c + n) mod len P /\
    total c' = wrap_uint64 (total c + n) /\
    mebi c' = mebi c.
Proof.
  intros [Hpay Hrd Hsize Hpos Hint] n.
  assert (Hn : 0 <= n <= len P - pos c) by (unfold n, len in *; lia).
  assert (Hnat : Nat.min (List.length p) (List.length (skipn (Z.to_nat (pos c)) P)) = Z.to_nat n).
  { rewrite length_skipn. unfold n, len in *. lia. }
  unfold Read. rewrite Hrd. unfold Bytes.Read. cbn [Bytes.s Bytes.i].
  destruct (Z.leb_spec (len P) (pos c)) as [Hge|_]; [lia|].
  unfold Bytes.copy. rewrite Hnat, Z2Nat.id by lia.
  cbn [pos uploadSize total payload reader mebi].
  assert (Hwrap : wrap_int (pos c + n) = pos c + n).
  { unfold wrap_int. rewrite Z.mod_small; lia. }
  rewrite Hwrap.
  set (taken := firstn (Z.to_nat n) (skipn (Z.to_nat (pos c)) P)).
  assert (Htaken : List.length taken = Z.to_nat n).
  { unfold taken. rewrite length_firstn, length_skipn. unfold len in *. lia. }
  exists (taken ++ skipn (Z.to_nat n) p).
  destruct (Z.eqb_spec (pos c + n) (uploadSize c)) as [Hend|Hmid].
  - eexists. split; [unfold resetReader; cbn; reflexivity|].
    split; [|split; [|split; [|split; [|split]]]].
    + rewrite firstn_app, Htaken, Nat.sub_diag, firstn_O, app_nil_r.
      rewrite firstn_all2 by lia. apply chunk_cyclic. unfold len in *. lia.
    + rewrite skipn_app, Htaken, Nat.sub_diag, skipn_all2 by lia. reflexivity.
    + constructor; cbn; try assumption; try reflexivity; lia.
    + cbn. rewrite Hend, Hsize, Z.mod_same; lia.
    + reflexivity.
    + reflexivity.
  - eexists. split; [reflexivity|].
    split; [|split; [|split; [|split; [|split]]]].
    + rewrite firstn_app, Htaken, Nat.sub_diag, firstn_O, app_nil_r.
      rewrite firstn_all2 by lia. apply chunk_cyclic. unfold len in *. lia.
    + rewrite skipn_app, Htaken, Nat.sub_diag, skipn_all2 by lia. reflexivity.
    + constructor; cbn; try assumption; try reflexivity; lia.
    + cbn. rewrite Z.mod_small; lia.
    + reflexivity.
    + reflexivity.
Qed.

Lemma readAll_serving (P : list byte) (bufs : list (list byte)) :
  forall c : BytesCounter,
  serving P c ->
  exists results c',
    readAll c bufs = Ret (results, c') /\
    serving P c' /\
    Forall (fun r => snd r = None) results /\
    dataOf results = cyclic P (Z.to_nat (pos c)) (List.length (dataOf results)) /\
    pos c' = (pos c + len (dataOf results)) mod len P.
Proof.
  induction bufs as [|p rest IH]; intros c Hc.
  - exists [], c. destruct Hc as [Hpay Hrd Hsize Hpos Hint] eqn:E. clear E.
    split; [reflexivity|]. split; [constructor; assumption|].
    split; [constructor|]. split; [reflexivity|].
    unfold dataOf, len at 1. cbn [List.map List.concat List.length Z.of_nat].
    rewrite Z.add_0_r, Z.mod_small; [reflexivity | exact Hpos].
  - destruct (Read_serving P c p Hc) as (p' & c1 & Hread & Hfirst & _ & Hc1 & Hpos1 & _).
    destruct (IH c1 Hc1) as (results & c' & Hrest & Hc' & Hnil & Hdata & Hpos').
    set (n := Z.min (len p) (len P - pos c)) in *.
    assert (Hn : 0 <= n) by (destruct Hc; unfold n, len in *; lia).
    assert (HP : 0 < len P) by (destruct Hc; lia).
    exists ((p', n, None) :: results), c'.
    cbn [readAll]. rewrite Hread. cbn [bind snd fst]. rewrite Hrest. cbn [bind snd fst].
    assert (Hd : dataOf ((p', n, None) :: results)
                 = cyclic P (Z.to_nat (pos c)) (Z.to_nat n) ++ dataOf results).
    { unfold dataOf. cbn [List.map List.concat]. unfold delivered at 1. cbn [fst snd].
      rewrite Hfirst. reflexivity. }
    split; [reflexivity|]. split; [exact Hc'|].
    split; [constructor; [reflexivity | exact Hnil]|].
    rewrite Hd, length_app, cyclic_length. split.
    + rewrite cyclic_app. f_equal. rewrite Hdata at 1.
      rewrite Hpos1, <- cyclic_start_mod.
      rewrite <- (cyclic_start_mod P (Z.to_nat (pos c) + Z.to_nat n)).
      f_equal. destruct Hc.
      rewrite Z2Nat.inj_mod, Z2Nat.inj_add by lia.
      unfold len. rewrite Nat2Z.id. rewrite Nat.Div0.mod_mod. reflexivity.
    + rewrite Hpos', Hpos1. rewrite Zplus_mod_idemp_l. f_equal.
      unfold len. rewrite length_app, cyclic_length. lia.
Qed.

(** The counter of the claim: a new counter, [SetUploadSize(10)], then
    [GenerateBlob] on an entropy source that yields the bytes [src]. *)
Definition tenKiB (src : nat -> byte) : outcome BytesCounter :=
  GenerateBlob (SetUploadSize NewCounter 10) (Some src).

Definition tenKiBPayload (src : nat -> byte) : list byte :=
  List.map src (seq 0 (Z.to_nat 10240)).

Lemma tenKiBPayload_len (src : nat -> byte) : len (tenKiBPayload src) = 10240.
Proof. unfold len, tenKiBPayload. rewrite length_map, length_seq. reflexivity. Qed.

Lemma tenKiB_serving (src : nat -> byte) :
  exists c0,
    tenKiB src = Ret c0 /\ serving (tenKiBPayload src) c0 /\
    payload c0 = tenKiBPayload src /\ uploadSize c0 = 10240 /\ pos c0 = 0 /\ total c0 = 0.
Proof.
  exists (mkCounter 0 0 (tenKiBPayload src) (Some (Bytes.NewReader (tenKiBPayload src)))
                    false 10240).
  split; [reflexivity|].
  split; [|repeat split].
  pose proof (tenKiBPayload_len src) as Hlen.
  constructor; cbn [payload reader uploadSize pos]; try reflexivity; lia.
Qed.

(** The counts a run of reads returned, and the bytes its buffers hold
    together. *)
Definition counts (results : list (list byte * Z * option error)) : list Z :=
  List.map (fun r => snd (fst r)) results.

Definition sumLen (bufs : list (list byte)) : Z :=
  fold_right (fun p acc => len p + acc) 0 bufs.

Lemma sumLen_nonneg (bufs : list (list byte)) : 0 <= sumLen bufs.
Proof.
  induction bufs as [|p rest IH]; cbn [sumLen fold_right]; [lia|].
  fold (sumLen rest). unfold len. lia.
Qed.

(** Reads whose buffers fit in what is left of the payload: each one fills
    its buffer. *)
Lemma readAll_chunks (P : list byte) (chunks : list (list byte)) :
  forall c : BytesCounter,
  serving P c ->
  pos c + sumLen chunks <= len P ->
  exists results c',
    readAll c chunks = Ret (results, c') /\
    serving P c' /\
    counts results = List.map len chunks /\
    Forall (fun r => snd r = None) results /\
    dataOf results = cyclic P (Z.to_nat (pos c)) (Z.to_nat (sumLen chunks)) /\
    pos c' = (pos c + sumLen chunks) mod len P.
Proof.
  induction chunks as [|p rest IH]; intros c Hc Hfit.
  - exists [], c. pose proof (serving_pos P c Hc) as Hpos.
    split; [reflexivity|]. split; [exact Hc|]. split; [reflexivity|].
    split; [constructor|]. split; [reflexivity|].
    cbn [sumLen fold_right]. rewrite Z.add_0_r, Z.mod_small; [reflexivity | exact Hpos].
  - cbn [sumLen fold_right] in Hfit. fold (sumLen rest) in Hfit.
    pose proof (sumLen_nonneg rest) as Hrest.
    pose proof (serving_pos P c Hc) as Hpos.
    assert (Hp : 0 <= len p) by (unfold len; lia).
    destruct (Read_serving P c p Hc) as (p' & c1 & Hread & Hfirst & _ & Hc1 & Hpos1 & _).
    replace (Z.min (len p) (len P - pos c)) with (len p) in * by lia.
    assert (Hle : pos c1 <= pos c + len p).
    { rewrite Hpos1. apply Z.mod_le; lia. }
    destruct (IH c1 Hc1) as (results & c' & Hrun & Hc' & Hcounts & Hnil & Hdata & Hpos'); [lia|].
    exists ((p', len p, None) :: results), c'.
    cbn [readAll]. rewrite Hread. cbn [bind snd fst]. rewrite Hrun. cbn [bind snd fst].
    split; [reflexivity|]. split; [exact Hc'|].
    split; [unfold counts in *; cbn [List.map fst snd]; rewrite Hcounts; reflexivity|].
    split; [constructor; [reflexivity | exact Hnil]|].
    cbn [sumLen fold_right]. fold (sumLen rest). split.
    + unfold dataOf in *. cbn [List.map List.concat]. unfold delivered at 1. cbn [fst snd].
      rewrite Hfirst, Hdata, Z2Nat.inj_add, cyclic_app by lia. f_equal.
      rewrite Hpos1, <- cyclic_start_mod.
      rewrite <- (cyclic_start_mod P (Z.to_nat (pos c) + Z.to_nat (len p))).
      f_equal. rewrite Z2Nat.inj_mod, Z2Nat.inj_add by lia.
      unfold len at 2. rewrite Nat2Z.id, Nat.Div0.mod_mod. reflexivity.
    + rewrite Hpos', Hpos1, Zplus_mod_idemp_l. f_equal. lia.
Qed.

(** A run of reads that takes exactly the payload, from its start: the
    reads fill their buffers, hand over the payload, and leave position
    and reader at the start. *)
Lemma readAll_cycle (P : list byte) (chunks : list (list byte)) (c : BytesCounter) :
  serving P c -> pos c = 0 -> sumLen chunks = len P ->
  exists results c',
    readAll c chunks = Ret (results, c') /\
    serving P c' /\
    counts results = List.map len chunks /\
    Forall (fun r => snd r = None) results /\
    dataOf results = P /\
    pos c' = 0.
Proof.
  intros Hc Hpos Hsum.
  pose proof (serving_pos P c Hc) as Hin.
  destruct (readAll_chunks P chunks c Hc) as (results & c' & Hrun & Hc' & Hcounts & Hnil & Hdata & Hpos');
    [lia|].
  exists results, c'. rewrite Hpos in Hdata, Hpos'.
  split; [exact Hrun|]. split; [exact Hc'|]. split; [exact Hcounts|]. split; [exact Hnil|].
  split.
  - rewrite Hdata, Hsum. unfold len. rewrite Nat2Z.id. apply cyclic_whole.
  - rewrite Hpos', Hsum, Z.add_0_l. apply Z.mod_same. lia.
Qed.

(** C10: take a new counter, set the upload size to 10 and generate the
    payload, 10240 bytes.

    Any run of [Read] calls, whatever the buffers: every call succeeds
    without an error, the payload stays the one generated, and after the
    run the position is the number of bytes handed over modulo 10240, so
    within [0, uploadSize), with the reader at that offset of the payload;
    the bytes handed over are the payload repeated from its start.

    The [Read] after any such run, on a buffer [p]: it returns
    min(len p, 10240 - pos) bytes, the bytes of the payload from the
    position on, and leaves the position that many further, back at 0 when
    it reaches 10240.

    Reads whose buffers sum to exactly 10240: each fills its buffer, together
    they hand over the payload, and position and reader are back at the
    start; a second run of such reads on the counter they leave hands over
    the same payload again, and ends at the start again. *)
Theorem Read_cycles_the_payload
    (src : nat -> byte) (bufs : list (list byte)) (p : list byte)
    (chunks again : list (list byte)) :
  exists c0 results c',
    tenKiB src = Ret c0 /\
    uploadSize c0 = 10240 /\ len (payload c0) = 10240 /\ pos c0 = 0 /\
    readAll c0 bufs = Ret (results, c') /\
    Forall (fun r => snd r = None) results /\
    payload c' = payload c0 /\
    uploadSize c' = 10240 /\
    0 <= pos c' < uploadSize c' /\
    pos c' = len (dataOf results) mod 10240 /\
    reader c' = Some (Bytes.mkReader (payload c0) (pos c')) /\
    dataOf results = cyclic (payload c0) 0 (List.length (dataOf results)) /\
    (let n := Z.min (len p) (10240 - pos c') in
     exists p' c'',
       Read c' p = Ret ((p', n, None), c'') /\
       firstn (Z.to_nat n) p' = cyclic (payload c0) (Z.to_nat (pos c')) (Z.to_nat n) /\
       skipn (Z.to_nat n) p' = skipn (Z.to_nat n) p /\
       payload c'' = payload c0 /\
       uploadSize c'' = 10240 /\
       pos c'' = (pos c' + n) mod 10240 /\
       reader c'' = Some (Bytes.mkReader (payload c0) (pos c''))) /\
    (sumLen chunks = 10240 -> sumLen again = 10240 ->
     exists r1 c1 r2 c2,
       readAll c0 chunks = Ret (r1, c1) /\
       counts r1 = List.map len chunks /\
       Forall (fun r => snd r = None) r1 /\
       dataOf r1 = payload c0 /\
       pos c1 = 0 /\
       reader c1 = Some (Bytes.mkReader (payload c0) 0) /\
       payload c1 = payload c0 /\
       readAll c1 again = Ret (r2, c2) /\
       counts r2 = List.map len again /\
       Forall (fun r => snd r = None) r2 /\
       dataOf r2 = payload c0 /\
       pos c2 = 0 /\
       reader c2 = Some (Bytes.mkReader (payload c0) 0) /\
       payload c2 = payload c0).
Proof.
  destruct (tenKiB_serving src) as (c0 & Hc0 & Hserv & Hpay & Hsize & Hpos0 & _).
  destruct (readAll_serving _ bufs c0 Hserv) as (results & c' & Hrun & Hserv' & Hnil & Hdata & Hpos).
  pose proof (tenKiBPayload_len src) as Hlen.
  rewrite Hpos0 in Hdata, Hpos. cbn [Z.to_nat] in Hdata. rewrite Z.add_0_l, Hlen in Hpos.
  exists c0, results, c'. rewrite Hpay, Hlen.
  split; [exact Hc0|]. split; [exact Hsize|]. split; [reflexivity|]. split; [exact Hpos0|].
  split; [exact Hrun|]. split; [exact Hnil|].
  pose proof Hserv' as [Hpay' Hrd' Hsize' Hpos' Hint'].
  rewrite Hlen in Hsize', Hpos'. rewrite Hsize'.
  split; [exact Hpay'|]. split; [reflexivity|]. split; [exact Hpos'|].
  split; [exact Hpos|]. split; [exact Hrd'|]. split; [exact Hdata|].
  split.
  - cbv zeta.
    destruct (Read_serving _ c' p Hserv')
      as (p' & c'' & Hread & Hfirst & Hskip & Hserv'' & Hpos'' & _).
    rewrite Hlen in Hread, Hfirst, Hskip, Hpos''.
    destruct Hserv'' as [Hpay'' Hrd'' Hsize'' _ _]. rewrite Hlen in Hsize''.
    exists p', c''.
    split; [exact Hread|]. split; [exact Hfirst|]. split; [exact Hskip|].
    split; [exact Hpay''|]. split; [exact Hsize''|]. split; [exact Hpos''|]. exact Hrd''.
  - intros Hchunks Hagain.
    destruct (readAll_cycle _ chunks c0 Hserv Hpos0)
      as (r1 & c1 & Hrun1 & Hserv1 & Hcounts1 & Hnil1 & Hdata1 & Hpos1); [lia|].
    destruct (readAll_cycle _ again c1 Hserv1 Hpos1)
      as (r2 & c2 & Hrun2 & Hserv2 & Hcounts2 & Hnil2 & Hdata2 & Hpos2); [lia|].
    destruct Hserv1 as [Hpay1 Hrd1 _ _ _]. destruct Hserv2 as [Hpay2 Hrd2 _ _ _].
    rewrite Hpos1 in Hrd1. rewrite Hpos2 in Hrd2.
    exists r1, c1, r2, c2.
    split; [exact Hrun1|]. split; [exact Hcounts1|]. split; [exact Hnil1|].
    split; [exact Hdata1|]. split; [exact Hpos1|]. split; [exact Hrd1|].
    split; [exact Hpay1|]. split; [exact Hrun2|]. split; [exact Hcounts2|].
    split; [exact Hnil2|]. split; [exact Hdata2|]. split; [exact Hpos2|].
    split; [exact Hrd2 | exact Hpay2].
Qed.

(** The claim's run: after two reads of 4096 bytes, a read with a buffer
    of 4096 bytes returns the 2048 bytes that remain and leaves the
    position at 0; the chunks 4096, 4096 and 2048 hand over the payload,
    and the chunks 2048, 4096 and 4096 after them hand it over again. *)
Lemma Read_cycles_the_payload_witness :
  let src := fun k : nat => byte_of_int (Z.of_nat k) in
  let buf := repeat x00 (Z.to_nat 4096) in
  let half := repeat x00 (Z.to_nat 2048) in
  exists c0 results c' p' c'' r1 c1 r2 c2,
    tenKiB src = Ret c0 /\
    readAll c0 [buf; buf] = Ret (results, c') /\
    pos c' = len (dataOf results) mod 10240 /\
    Read c' buf = Ret ((p', Z.min 4096 (10240 - pos c'), None), c'') /\
    pos c'' = (pos c' + Z.min 4096 (10240 - pos c')) mod 10240 /\
    readAll c0 [buf; buf; half] = Ret (r1, c1) /\
    counts r1 = [4096; 4096; 2048] /\
    dataOf r1 = payload c0 /\
    pos c1 = 0 /\
    readAll c1 [half; buf; buf] = Ret (r2, c2) /\
    counts r2 = [2048; 4096; 4096] /\
    dataOf r2 = payload c0 /\
    pos c2 = 0 /\
    payload c2 = payload c0.
Proof.
  intros src buf half.
  destruct (Read_cycles_the_payload src [buf; buf] buf [buf; buf; half] [half; buf; buf])
    as (c0 & results & c' & Hc0 & _ & _ & _ & Hrun & _ & _ & _ & _ & Hpos & _ & _ & Hnext & Hcycle).
  destruct Hnext as (p' & c'' & Hread & _ & _ & _ & _ & Hpos'' & _).
  destruct Hcycle as (r1 & c1 & r2 & c2 & Hrun1 & Hcounts1 & _ & Hdata1 & Hpos1 & _ & _
                      & Hrun2 & Hcounts2 & _ & Hdata2 & Hpos2 & _ & Hpay2);
    [reflexivity | reflexivity |].
  exists c0, results, c', p', c'', r1, c1, r2, c2.
  split; [exact Hc0|]. split; [exact Hrun|]. split; [exact Hpos|].
  split; [exact Hread|]. split; [exact Hpos''|].
  split; [exact Hrun1|]. split; [exact Hcounts1|]. split; [exact Hdata1|].
  split; [exact Hpos1|]. split; [exact Hrun2|]. split; [exact Hcounts2|].
  split; [exact Hdata2|]. split; [exact Hpos2|]. exact Hpay2.
Defined.

(** A run with three buffers of 4096 bytes: the third read stops at the
    end of the payload with 2048 bytes, and the position is 0 again. *)
Definition threeReads : bool :=
  let src := fun k : nat => byte_of_int (Z.of_nat k) in
  let buf := repeat x00 (Z.to_nat 4096) in
  match tenKiB src with
  | Ret c0 =>
      match readAll c0 [buf; buf; buf] with
      | Ret (results, c') =>
          bool_decide (List.map (fun r => snd (fst r)) results = [4096; 4096; 2048])
          && (pos c' =? 0) && (total c' =? 10240)
      | _ => false
      end
  | _ => false
  end.

Example three_reads_reach_the_end : threeReads = true.
Proof. vm_compute. reflexivity. Qed.

End CyclingFacts.

(** ** The block cipher: decryption undoes encryption *)
Module DESFacts.
Import DES.

Definition swap (lr : list bool * list bool) : list bool * list bool :=
  (snd lr, fst lr).

Lemma xor_bits_length (a b : list bool) : List.length (xor_bits a b) = List.length a.
Proof.
  revert b. induction a as [|x a IH]; intros [|y b]; cbn; try reflexivity.
  rewrite IH. reflexivity.
Qed.

Lemma xor_bits_cancel (a b : list bool) : xor_bits (xor_bits a b) b = a.
Proof.
  revert b. induction a as [|x a IH]; intros [|y b]; cbn; try reflexivity.
  rewrite IH, xorb_assoc, xorb_nilpotent, xorb_false_r. reflexivity.
Qed.

(** A round, the halves exchanged, the same round, the halves exchanged
    again: nothing has changed. *)
Lemma round_undone (lr : list bool * list bool) (k : list bool) :
  round (swap (round lr k)) k = swap lr.
Proof.
  destruct lr as [l r]. unfold round, swap. cbn [fst snd].
  rewrite xor_bits_cancel. reflexivity.
Qed.

Lemma rounds_undone (ks : list (list bool)) :
  forall lr, fold_left round (rev ks) (swap (fold_left round ks lr)) = swap lr.
Proof.
  induction ks as [|k ks IH]; intros lr; cbn [fold_left rev]; [reflexivity|].
  rewrite fold_left_app. cbn [fold_left]. rewrite IH. apply round_undone.
Qed.

Definition halves32 (lr : list bool * list bool) : Prop :=
  List.length (fst lr) = 32%nat /\ List.length (snd lr) = 32%nat.

Lemma rounds_halves32 (ks : list (list bool)) :
  forall lr, halves32 lr -> halves32 (fold_left round ks lr).
Proof.
  induction ks as [|k ks IH]; intros lr Hlr; cbn [fold_left]; [exact Hlr|].
  apply IH. destruct Hlr as [Hl Hr]. split; cbn [round fst snd]; [exact Hr|].
  rewrite xor_bits_length. exact Hl.
Qed.

Lemma permute_length (table : list nat) (bits : list bool) :
  List.length (permute table bits) = List.length table.
Proof. unfold permute. apply length_map. Qed.

Ltac sixty_four bits :=
  do 64 (destruct bits as [|? bits]; [discriminate|]);
  destruct bits; [reflexivity | discriminate].

Lemma IP_FP (bits : list bool) :
  List.length bits = 64%nat -> permute IP (permute FP bits) = bits.
Proof. intros H. sixty_four bits. Qed.

Lemma FP_IP (bits : list bool) :
  List.length bits = 64%nat -> permute FP (permute IP bits) = bits.
Proof. intros H. sixty_four bits. Qed.

(** On a block of 64 bits the rounds with the subkeys reversed undo the
    rounds with the subkeys, whatever the subkeys are. *)
Lemma cryptBits_undone (ks : list (list bool)) (block : list bool) :
  List.length block = 64%nat ->
  cryptBits (rev ks) (cryptBits ks block) = block.
Proof.
  intros Hlen. unfold cryptBits at 1.
  set (b := permute IP block).
  assert (Hb : List.length b = 64%nat) by (unfold b; apply permute_length).
  unfold cryptBits.
  fold b.
  set (lr := fold_left round ks (firstn 32 b, skipn 32 b)).
  assert (Hlr : halves32 lr).
  { apply rounds_halves32. split; cbn [fst snd].
    - rewrite length_firstn. lia.
    - rewrite length_skipn. lia. }
  destruct Hlr as [Hl Hr].
  rewrite IP_FP by (rewrite length_app; lia).
  rewrite firstn_app, Hr, Nat.sub_diag, firstn_O, app_nil_r, firstn_all2 by lia.
  rewrite skipn_app, Hr, Nat.sub_diag, skipn_all2 by lia.
  rewrite skipn_O, app_nil_l.
  change (snd lr, fst lr) with (swap lr). unfold lr.
  rewrite rounds_undone. cbn [swap fst snd].
  rewrite firstn_skipn. unfold b. apply FP_IP. exact Hlen.
Qed.

Lemma bytes_of_bits_of_bytes (bs : list byte) :
  bytes_of_bits (bits_of_bytes bs) = bs.
Proof.
  induction bs as [|b bs IH]; [reflexivity|].
  unfold bits_of_bytes. cbn [flat_map]. fold (bits_of_bytes bs).
  unfold bits_of_byte.
  pose proof (Byte.of_bits_to_bits b) as Hb.
  destruct (Byte.to_bits b) as (b0 & b1 & b2 & b3 & b4 & b5 & b6 & b7).
  cbn [app bytes_of_bits]. rewrite Hb, IH. reflexivity.
Qed.

Lemma bits_of_bytes_length (bs : list byte) :
  List.length (bits_of_bytes bs) = (8 * List.length bs)%nat.
Proof.
  induction bs as [|b bs IH]; [reflexivity|].
  unfold bits_of_bytes. cbn [flat_map]. fold (bits_of_bytes bs).
  rewrite length_app, IH. unfold bits_of_byte.
  destruct (Byte.to_bits b) as (b0 & b1 & b2 & b3 & b4 & b5 & b6 & b7).
  cbn [List.length]. lia.
Qed.

Lemma bits_of_bytes_of_bits (k : nat) :
  forall bits : list bool,
  List.length bits = (8 * k)%nat ->
  bits_of_bytes (bytes_of_bits bits) = bits /\ List.length (bytes_of_bits bits) = k.
Proof.
  induction k as [|k IH]; intros bits Hlen.
  - destruct bits; [split; reflexivity | discriminate].
  - do 8 (destruct bits as [|? bits]; [cbn in Hlen; lia|]).
    destruct (IH bits) as [Hbits Hk]; [cbn in Hlen; lia|].
    cbn [bytes_of_bits]. unfold bits_of_bytes. cbn [flat_map List.length].
    fold (bits_of_bytes (bytes_of_bits bits)).
    rewrite Hbits, Hk. unfold bits_of_byte. rewrite Byte.to_bits_of_bits.
    split; reflexivity.
Qed.

Lemma cryptBits_length (ks : list (list bool)) (block : list bool) :
  List.length (cryptBits ks block) = 64%nat.
Proof. unfold cryptBits. apply permute_length. Qed.

Lemma cryptBlock_length (ks : list (list bool)) (src : list byte) :
  List.length (cryptBlock ks src) = 8%nat.
Proof.
  unfold cryptBlock.
  apply (bits_of_bytes_of_bits 8). apply cryptBits_length.
Qed.

(** On a block of eight bytes, decryption undoes encryption. *)
Lemma cryptBlock_undone (ks : list (list bool)) (src : list byte) :
  List.length src = 8%nat ->
  cryptBlock (rev ks) (cryptBlock ks src) = src.
Proof.
  intros Hlen. unfold cryptBlock at 1.
  rewrite (firstn_all2 (cryptBlock ks src)) by (rewrite cryptBlock_length; lia).
  unfold cryptBlock.
  rewrite (proj1 (bits_of_bytes_of_bits 8 _ (cryptBits_length _ _))).
  rewrite firstn_all2 by lia.
  rewrite cryptBits_undone by (rewrite bits_of_bytes_length; lia).
  apply bytes_of_bits_of_bytes.
Qed.

(** Known answers: the worked example of the standard's literature (key
    133457799BBCDFF1, block 0123456789ABCDEF), and the all-zero key and
    block. *)
Example known_answers :
  cryptBlock (generateSubkeys [x13; x34; x57; x79; x9b; xbc; xdf; xf1])
             [x01; x23; x45; x67; x89; xab; xcd; xef]
  = [x85; xe8; x13; x54; x0f; x0a; xb4; x05] /\
  cryptBlock (generateSubkeys [x00; x00; x00; x00; x00; x00; x00; x00])
             [x00; x00; x00; x00; x00; x00; x00; x00]
  = [x8c; xa6; x4d; xe9; xc1; xb1; x23; xa7].
Proof. split; vm_compute; reflexivity. Qed.

End DESFacts.

(** ** The credential codec *)
Module CodecFacts.
Import Go Speedtest DESFacts GoFacts.

(** *** Hexadecimal text *)

Lemma hex_digits_of_byte (v : byte) :
  Hex.fromHexChar (Hex.hexDigit (N.shiftr (Byte.to_N v) 4)) = Some (N.shiftr (Byte.to_N v) 4) /\
  Hex.fromHexChar (Hex.hexDigit (N.land (Byte.to_N v) 15)) = Some (N.land (Byte.to_N v) 15) /\
  Hex.joinByte (N.shiftr (Byte.to_N v) 4) (N.land (Byte.to_N v) 15) = v.
Proof. destruct v; repeat split. Qed.

Lemma DecodeString_EncodeToString (src : list byte) :
  Hex.DecodeString (Hex.EncodeToString src) = (src, None).
Proof.
  induction src as [|v src IH]; [reflexivity|].
  destruct (hex_digits_of_byte v) as (Hhi & Hlo & Hjoin).
  cbn [Hex.EncodeToString Hex.DecodeString].
  rewrite Hhi, Hlo, IH, Hjoin. reflexivity.
Qed.

(** *** Padding *)

Lemma concat_repeat_singleton (b : byte) (n : nat) :
  List.concat (repeat [b] n) = repeat b n.
Proof. induction n as [|n IH]; cbn; [reflexivity | rewrite IH; reflexivity]. Qed.

Lemma int_of_byte_of_int (n : Z) :
  0 <= n <= 255 -> int_of_byte (byte_of_int n) = n.
Proof.
  intros Hn. unfold int_of_byte, byte_of_int. rewrite Z.mod_small by lia.
  destruct (Byte.of_N (Z.to_N n)) as [b|] eqn:Hb.
  - apply Byte.to_of_N in Hb. rewrite Hb. lia.
  - apply Byte.of_N_None_iff in Hb. lia.
Qed.

(** The number of bytes [PKCS5Padding] adds for a block size. *)
Definition padCount (data : list byte) (blockSize : Z) : Z :=
  blockSize - len data mod blockSize.

Lemma padCount_bounds (data : list byte) (blockSize : Z) :
  0 < blockSize ->
  1 <= padCount data blockSize <= blockSize /\
  (len data + padCount data blockSize) mod blockSize = 0 /\
  (len data mod blockSize = 0 -> padCount data blockSize = blockSize).
Proof.
  intros Hbs. unfold padCount.
  pose proof (Z.mod_pos_bound (len data) blockSize Hbs) as Hm.
  split; [lia|]. split; [|lia].
  pose proof (Z.div_mod (len data) blockSize ltac:(lia)) as Hdm.
  replace (len data + (blockSize - len data mod blockSize))
    with ((len data / blockSize + 1) * blockSize) by lia.
  apply Z.mod_mul. lia.
Qed.

Lemma PKCS5Padding_pads (data : list byte) (blockSize : Z) :
  0 < blockSize < 2 ^ 63 ->
  PKCS5Padding data blockSize
  = Ret (data ++ repeat (byte_of_int (padCount data blockSize))
                        (Z.to_nat (padCount data blockSize))).
Proof.
  intros Hbs. unfold PKCS5Padding.
  destruct (Z.eqb_spec blockSize 0) as [H0|_]; [lia|].
  pose proof (padCount_bounds data blockSize ltac:(lia)) as (Hpad & _).
  rewrite Z.rem_mod_nonneg by (pose proof (len_nonneg data); lia).
  fold (padCount data blockSize).
  assert (Hwrap : wrap_int (padCount data blockSize) = padCount data blockSize).
  { unfold wrap_int. rewrite Z.mod_small; lia. }
  rewrite Hwrap. unfold bytes_Repeat.
  destruct (Z.ltb_spec (padCount data blockSize) 0) as [Hneg|_]; [lia|].
  cbn [bind]. rewrite concat_repeat_singleton. reflexivity.
Qed.

Lemma lookup_repeat (b : byte) (n i : nat) :
  (i < n)%nat -> repeat b n !! i = Some b.
Proof.
  revert i. induction n as [|n IH]; intros i Hi; [lia|].
  destruct i as [|i]; [reflexivity|]. cbn. apply IH. lia.
Qed.

Lemma PKCS5UnPadding_padded (data : list byte) (pad : Z) :
  1 <= pad <= 255 ->
  PKCS5UnPadding (data ++ repeat (byte_of_int pad) (Z.to_nat pad)) = Ret data.
Proof.
  intros Hpad. unfold PKCS5UnPadding.
  assert (Hlen : len (data ++ repeat (byte_of_int pad) (Z.to_nat pad)) = len data + pad).
  { unfold len. rewrite length_app, repeat_length. lia. }
  rewrite Hlen.
  assert (Hlast : (data ++ repeat (byte_of_int pad) (Z.to_nat pad))
                    !! Z.to_nat (len data + pad - 1) = Some (byte_of_int pad)).
  { rewrite lookup_app_r by (unfold len; lia).
    apply lookup_repeat. unfold len. lia. }
  rewrite Hlast, int_of_byte_of_int by lia.
  destruct (Z.ltb_spec (len data + pad - pad) 0) as [Hneg|_];
    [pose proof (len_nonneg data); lia|].
  replace (len data + pad - pad) with (len data) by lia.
  unfold len. rewrite Nat2Z.id, firstn_app, firstn_all, Nat.sub_diag, firstn_O, app_nil_r.
  reflexivity.
Qed.

(** *** The block loop *)

Lemma first_block (blk rest : list byte) :
  List.length blk = 8%nat -> firstn 8 (blk ++ rest) = blk.
Proof.
  intros H. rewrite firstn_app, H, Nat.sub_diag, firstn_O, app_nil_r.
  apply firstn_all2. lia.
Qed.

Lemma after_block (blk rest : list byte) :
  List.length blk = 8%nat -> skipn 8 (blk ++ rest) = rest.
Proof.
  intros H. rewrite skipn_app, H, Nat.sub_diag, skipn_O.
  rewrite (skipn_all2 blk) by lia. reflexivity.
Qed.

(** [f] applied to each of the first [k] blocks of eight bytes. *)
Fixpoint perBlock (f : list byte -> list byte) (k : nat) (data : list byte) : list byte :=
  match k with
  | O => []
  | S k' => f (firstn 8 data) ++ perBlock f k' (skipn 8 data)
  end.

Section PerBlock.

Variables f g : list byte -> list byte.
Hypothesis f_block : forall src, List.length (f src) = 8%nat.
Hypothesis g_undoes_f : forall src, List.length src = 8%nat -> g (f src) = src.

Lemma perBlock_length (k : nat) :
  forall data, List.length (perBlock f k data) = (8 * k)%nat.
Proof.
  induction k as [|k IH]; intros data; cbn [perBlock]; [reflexivity|].
  rewrite length_app, f_block, IH. lia.
Qed.

Lemma perBlock_undone (k : nat) :
  forall data, List.length data = (8 * k)%nat ->
  perBlock g k (perBlock f k data) = data.
Proof.
  induction k as [|k IH]; intros data Hlen; cbn [perBlock].
  - destruct data; [reflexivity | discriminate].
  - rewrite first_block, after_block by apply f_block.
    rewrite g_undoes_f by (rewrite length_firstn; lia).
    rewrite IH by (rewrite length_skipn; lia).
    apply firstn_skipn.
Qed.

End PerBlock.

(** On whole blocks and a window [dst] as long as [data], the loop with
    [block.Encrypt] returns, and the window holds each block of [data]
    put through the cipher. *)
Lemma blockLoop_Encrypt (c : DES.desCipher) (k : nat) :
  forall data dst : list byte,
  List.length data = (8 * k)%nat -> List.length dst = (8 * k)%nat ->
  blockLoop (DES.Encrypt c) data dst
  = Ret (perBlock (DES.cryptBlock (DES.subkeys c)) k data).
Proof.
  induction k as [|k IH]; intros data dst Hdata Hdst.
  - destruct data; [|discriminate]. destruct dst; [|discriminate].
    simp blockLoop. reflexivity.
  - destruct data as [|b data']; [discriminate|].
    simp blockLoop.
    set (data := b :: data') in *.
    unfold DES.Encrypt at 1.
    destruct (Z.ltb_spec (len (firstn 8 data)) DES.BlockSize) as [Hshort|_].
    { unfold len, DES.BlockSize in Hshort. rewrite length_firstn in Hshort. lia. }
    destruct (Z.ltb_spec (len dst) DES.BlockSize) as [Hshort|_].
    { unfold len, DES.BlockSize in Hshort. lia. }
    cbn [bind].
    pose proof (cryptBlock_length (DES.subkeys c) (firstn 8 data)) as Hblock.
    rewrite after_block by exact Hblock.
    rewrite IH by (rewrite length_skipn; lia). cbn [bind].
    rewrite first_block by exact Hblock.
    reflexivity.
Qed.

Lemma Decrypt_as_Encrypt (c : DES.desCipher) :
  DES.Decrypt c = DES.Encrypt (DES.mkCipher (rev (DES.subkeys c))).
Proof. reflexivity. Qed.

(** *** Encrypt and Decrypt *)

Lemma list_byte_of_string_length (s : string) :
  len (list_byte_of_string s) = lenString s.
Proof.
  unfold len, lenString, list_byte_of_string. rewrite length_map. f_equal.
  induction s as [|c s IH]; cbn; [reflexivity | rewrite IH; reflexivity].
Qed.

(** The plaintext with its padding, and the number of blocks it fills. *)
Definition padded (data : list byte) : list byte :=
  data ++ repeat (byte_of_int (padCount data 8)) (Z.to_nat (padCount data 8)).

Definition blockCount (data : list byte) : nat :=
  Z.to_nat ((len data + padCount data 8) / 8).

Lemma padded_length (data : list byte) :
  List.length (padded data) = (8 * blockCount data)%nat /\ (0 < blockCount data)%nat.
Proof.
  pose proof (padCount_bounds data 8 ltac:(lia)) as (Hpad & Hmod & _).
  pose proof (len_nonneg data) as Hlen.
  apply Z.mod_divide in Hmod; [|lia]. destruct Hmod as [q Hq].
  unfold padded, blockCount. rewrite length_app, repeat_length, Hq.
  rewrite Z.div_mul by lia. unfold len in *. lia.
Qed.

(** What [Encrypt] puts into hexadecimal text. *)
Definition ciphertext (src key : string) : list byte :=
  perBlock (DES.cryptBlock (DES.generateSubkeys (list_byte_of_string key)))
           (blockCount (list_byte_of_string src)) (padded (list_byte_of_string src)).

Lemma ciphertext_length (src key : string) :
  List.length (ciphertext src key) = (8 * blockCount (list_byte_of_string src))%nat.
Proof. unfold ciphertext. apply perBlock_length. intros s0. apply cryptBlock_length. Qed.

Lemma whole_blocks (data : list byte) (k : nat) :
  List.length data = (8 * k)%nat -> (Z.rem (len data) 8 =? 0) = true.
Proof.
  intros H. unfold len. rewrite H.
  rewrite Z.rem_mod_nonneg by lia.
  replace (Z.of_nat (8 * k)) with (Z.of_nat k * 8) by lia.
  rewrite Z.mod_mul by lia. reflexivity.
Qed.

Lemma Encrypt_returns (src key : string) :
  lenString key = 8 ->
  Encrypt src key = Ret (Hex.EncodeToString (ciphertext src key)).
Proof.
  intros Hkey. unfold Encrypt, DES.NewCipher, DES.BlockSize.
  rewrite list_byte_of_string_length, Hkey. cbn [Z.eqb Pos.eqb].
  rewrite PKCS5Padding_pads by lia.
  cbn [bind]. fold (padded (list_byte_of_string src)).
  destruct (padded_length (list_byte_of_string src)) as [Hlen _].
  rewrite (whole_blocks _ _ Hlen). cbn [negb].
  rewrite (blockLoop_Encrypt _ (blockCount (list_byte_of_string src)))
    by (rewrite ?repeat_length; exact Hlen).
  reflexivity.
Qed.

Lemma Decrypt_returns (src key : string) :
  lenString key = 8 ->
  Decrypt (Hex.EncodeToString (ciphertext src key)) key = Ret (list_byte_of_string src).
Proof.
  intros Hkey. unfold Decrypt. rewrite DecodeString_EncodeToString.
  unfold DES.NewCipher, DES.BlockSize. rewrite list_byte_of_string_length, Hkey. cbn [Z.eqb Pos.eqb].
  pose proof (ciphertext_length src key) as Hlen.
  rewrite (whole_blocks _ _ Hlen). cbn [negb].
  rewrite Decrypt_as_Encrypt.
  rewrite (blockLoop_Encrypt _ (blockCount (list_byte_of_string src)))
    by (rewrite ?repeat_length; exact Hlen).
  cbn [bind DES.subkeys]. unfold ciphertext.
  rewrite perBlock_undone.
  - apply PKCS5UnPadding_padded.
    pose proof (padCount_bounds (list_byte_of_string src) 8 ltac:(lia)). lia.
  - intros s0. apply cryptBlock_length.
  - intros s0 Hs0. apply cryptBlock_undone. exact Hs0.
  - apply padded_length.
Qed.

(** The text for one plaintext and key, as other implementations of the
    cipher in this mode and padding give it. *)
Example Encrypt_abcdefgh :
  Encrypt "abcdefgh" "taier123" = Ret "9206b10ae9dc18a51675da6fafe62563".
Proof. vm_compute. reflexivity. Qed.

(** C3: for every plaintext and every key of eight bytes, [Encrypt]
    returns a text, and [Decrypt] of that text under the same key returns
    the bytes of the plaintext. *)
Theorem Decrypt_Encrypt (p k : string) :
  lenString k = 8 ->
  exists text : string,
    Encrypt p k = Ret text /\ Decrypt text k = Ret (list_byte_of_string p).
Proof.
  intros Hkey. exists (Hex.EncodeToString (ciphertext p k)).
  split; [apply Encrypt_returns | apply Decrypt_returns]; exact Hkey.
Qed.

Lemma Decrypt_Encrypt_witness :
  exists text : string,
    Encrypt "{'deviceId': '0123456789abcdef'}" "taier123" = Ret text /\
    Decrypt text "taier123" = Ret (list_byte_of_string "{'deviceId': '0123456789abcdef'}").
Proof.
  apply (Decrypt_Encrypt "{'deviceId': '0123456789abcdef'}" "taier123"). reflexivity.
Defined.

(** C9: on any bytes and the block size of the cipher, [PKCS5Padding]
    returns the bytes with [pad] more bytes after them, each the byte
    [pad], where [pad] is at least 1 and at most the block size, and is the
    block size when the length is already a multiple of it.  So for a key
    of eight bytes [Encrypt] returns a text that [hex.DecodeString] turns
    into plaintext length plus [pad] bytes, a positive multiple of the
    block size. *)
Theorem PKCS5Padding_bounds (data : list byte) :
  exists pad : Z,
    PKCS5Padding data DES.BlockSize
    = Ret (data ++ repeat (byte_of_int pad) (Z.to_nat pad)) /\
    1 <= pad <= DES.BlockSize /\
    int_of_byte (byte_of_int pad) = pad /\
    (len data mod DES.BlockSize = 0 -> pad = DES.BlockSize) /\
    (len data + pad) mod DES.BlockSize = 0 /\
    (forall src key : string,
        list_byte_of_string src = data -> lenString key = 8 ->
        exists (text : string) (out : list byte),
          Encrypt src key = Ret text /\
          Hex.DecodeString text = (out, None) /\
          len out = len data + pad /\
          0 < len out /\ len out mod DES.BlockSize = 0).
Proof.
  exists (padCount data 8).
  pose proof (padCount_bounds data 8 ltac:(lia)) as (Hpad & Hmod & Hfull).
  pose proof (len_nonneg data) as Hlen.
  split; [apply PKCS5Padding_pads; unfold DES.BlockSize; lia|].
  split; [exact Hpad|].
  split; [apply int_of_byte_of_int; lia|].
  split; [exact Hfull|]. split; [exact Hmod|].
  intros src key Hsrc Hkey.
  exists (Hex.EncodeToString (ciphertext src key)), (ciphertext src key).
  split; [apply Encrypt_returns; exact Hkey|].
  split; [apply DecodeString_EncodeToString|].
  assert (Hout : len (ciphertext src key) = len data + padCount data 8).
  { unfold len at 1. rewrite ciphertext_length, Hsrc.
    destruct (padded_length data) as [Hp _]. rewrite <- Hp.
    unfold padded, len. rewrite length_app, repeat_length. lia. }
  rewrite Hout. split; [reflexivity|]. split; [lia | exact Hmod].
Qed.

End CodecFacts.

(** ** Filter keys and what the filters keep *)
Module KeyFacts.
Import Go Defs Speedtest GoFacts FilterFacts.
Local Open Scope string_scope.
Local Open Scope Z_scope.

Lemma parse_Itoa (n : Z) : NilZero.int_of_string (Itoa n) = Some (Z.to_int n).
Proof.
  unfold Itoa. apply NilZero.isi; destruct n; cbn; try discriminate.
  - intros [= H]. exact (DecimalPos.Unsigned.to_uint_nonnil _ H).
  - intros [= H]. exact (DecimalPos.Unsigned.to_uint_nonnil _ H).
Qed.

Lemma Itoa_inj (a b : Z) : Itoa a = Itoa b -> a = b.
Proof.
  intros H. apply DecimalZ.to_int_inj.
  pose proof (parse_Itoa a) as Ha. rewrite H, parse_Itoa in Ha. congruence.
Qed.

(** A decimal numeral starts with a digit or the minus sign, so with
    neither of the letters that mark a family. *)
Lemma Itoa_no_letter (n : Z) :
  String.prefix "P" (Itoa n) = false /\ String.prefix "W" (Itoa n) = false.
Proof.
  pose proof (parse_Itoa n) as H.
  destruct (Itoa n) as [|c rest]; [discriminate|].
  split.
  - destruct (String.prefix "P" (String c rest)) eqn:Hp; [|reflexivity].
    apply prefix_split in Hp as [after Hp]. cbn in Hp. injection Hp as -> _.
    cbn in H. destruct (NilEmpty.uint_of_string rest); discriminate.
  - destruct (String.prefix "W" (String c rest)) eqn:Hp; [|reflexivity].
    apply prefix_split in Hp as [after Hp]. cbn in Hp. injection Hp as -> _.
    cbn in H. destruct (NilEmpty.uint_of_string rest); discriminate.
Qed.

Lemma Itoa_not_lettered (letter : string) (n m : Z) :
  letter = "P" \/ letter = "W" -> Itoa n <> letter ++ Itoa m.
Proof.
  intros Hl Heq. destruct (Itoa_no_letter n) as [HP HW].
  destruct Hl as [-> | ->].
  - assert (String.prefix "P" (Itoa n) = true) by (apply prefix_split; eauto). congruence.
  - assert (String.prefix "W" (Itoa n) = true) by (apply prefix_split; eauto). congruence.
Qed.

(** X1: two servers have the same filter key exactly when they have the
    same id and the same type tag. *)
Theorem serverKey_inj (a b : Server) :
  serverKey a = serverKey b <-> ID a = ID b /\ Typ a = Typ b.
Proof.
  unfold serverKey. split.
  - destruct (Typ a), (Typ b); intros H; cbn in H;
      try (injection H as H; apply Itoa_inj in H; split; [exact H | reflexivity]);
      try discriminate;
      try (apply Itoa_inj in H; split; [exact H | reflexivity]);
      try (exfalso; eapply (Itoa_not_lettered "P"); [left; reflexivity | exact H]);
      try (exfalso; eapply (Itoa_not_lettered "W"); [right; reflexivity | exact H]);
      try (exfalso; symmetry in H; eapply (Itoa_not_lettered "P"); [left; reflexivity | exact H]);
      try (exfalso; symmetry in H; eapply (Itoa_not_lettered "W"); [right; reflexivity | exact H]).
  - intros [Hid Ht]. rewrite Hid, Ht. reflexivity.
Qed.

(** *** What [preprocessServers] keeps *)

Definition notExcluded (excludes : list string) (server : Server) : bool :=
  negb (contains excludes (serverKey server)).

Definition named (specific : list string) (server : Server) : bool :=
  contains specific (serverKey server).

Lemma excludeLoop_from (excludes : list string) (servers : list Server) :
  forall acc,
  fold_left (fun ret server =>
               if contains excludes (serverKey server) then ret else (ret ++ [server])%list)
            servers acc
  = (acc ++ List.filter (notExcluded excludes) servers)%list.
Proof.
  induction servers as [|x l IH]; intros acc; cbn [fold_left List.filter].
  - rewrite app_nil_r. reflexivity.
  - rewrite IH. unfold notExcluded at 2.
    destruct (contains excludes (serverKey x)); cbn [negb];
      [|rewrite <- app_assoc]; reflexivity.
Qed.

Lemma excludeLoop_filter (excludes : list string) (servers : list Server) :
  excludeLoop excludes servers = List.filter (notExcluded excludes) servers.
Proof. unfold excludeLoop. rewrite excludeLoop_from. reflexivity. Qed.

Lemma specificLoop_from (specific : list string) (servers : list Server) :
  forall acc,
  fold_left (fun ret server =>
               if contains specific (serverKey server) then (ret ++ [server])%list else ret)
            servers acc
  = (acc ++ List.filter (named specific) servers)%list.
Proof.
  induction servers as [|x l IH]; intros acc; cbn [fold_left List.filter].
  - rewrite app_nil_r. reflexivity.
  - rewrite IH. unfold named at 2.
    destruct (contains specific (serverKey x)); [rewrite <- app_assoc|]; reflexivity.
Qed.

Lemma specificLoop_filter (specific : list string) (servers : list Server) :
  specificLoop specific servers = List.filter (named specific) servers.
Proof. unfold specificLoop. rewrite specificLoop_from. reflexivity. Qed.

Lemma filter_sublist {A : Type} (f : A -> bool) (l : list A) :
  sublist (List.filter f l) l.
Proof.
  induction l as [|x l IH]; cbn [List.filter]; [constructor|].
  destruct (f x); [apply sublist_skip | apply sublist_cons]; exact IH.
Qed.

(** X2: with filtering on, an exclude list and no include list,
    [preprocessServers] returns, in their order, exactly the servers whose
    key is not in the exclude list, and no error. *)
Theorem preprocessServers_excludes
    (servers : list Server) (excludes : list string) :
  0 < len excludes ->
  preprocessServers servers excludes [] true
  = (List.filter (notExcluded excludes) servers, None) /\
  (forall server,
      In server (fst (preprocessServers servers excludes [] true))
      <-> In server servers /\ ~ In (serverKey server) excludes).
Proof.
  intros Hex.
  assert (Heq : preprocessServers servers excludes [] true
                = (List.filter (notExcluded excludes) servers, None)).
  { unfold preprocessServers. apply Z.ltb_lt in Hex. rewrite Hex. cbn.
    rewrite excludeLoop_filter. reflexivity. }
  split; [exact Heq|]. intros server. rewrite Heq. cbn [fst].
  rewrite filter_In. unfold notExcluded. rewrite negb_true_iff.
  rewrite <- contains_In. destruct (contains excludes (serverKey server)); intuition congruence.
Qed.

Lemma preprocessServers_excludes_witness :
  preprocessServers [sampleServer 1 Standard; sampleServer 1 WirelessSpeed;
                     sampleServer 2 Perception]
                    ["1"; "P2"] [] true
  = ([sampleServer 1 WirelessSpeed], None).
Proof.
  apply (preprocessServers_excludes
           [sampleServer 1 Standard; sampleServer 1 WirelessSpeed; sampleServer 2 Perception]
           ["1"; "P2"]).
  reflexivity.
Defined.

(** X3: with filtering on, no exclude list and an include list without
    "-1", [preprocessServers] returns, in their order, exactly the servers
    whose key is in the include list, and no error; entries that name no
    server are passed over. *)
Theorem preprocessServers_specific
    (servers : list Server) (specific : list string) :
  0 < len specific -> ~ In "-1" specific ->
  preprocessServers servers [] specific true
  = (List.filter (named specific) servers, None) /\
  (forall server,
      In server (fst (preprocessServers servers [] specific true))
      <-> In server servers /\ In (serverKey server) specific).
Proof.
  intros Hsp Hall.
  assert (Heq : preprocessServers servers [] specific true
                = (List.filter (named specific) servers, None)).
  { unfold preprocessServers. apply Z.ltb_lt in Hsp. rewrite Hsp. cbn.
    destruct (contains specific "-1") eqn:Hc; [apply contains_In in Hc; contradiction|].
    cbn. rewrite specificLoop_filter. reflexivity. }
  split; [exact Heq|]. intros server. rewrite Heq. cbn [fst].
  rewrite filter_In. unfold named. rewrite contains_In. reflexivity.
Qed.

Lemma preprocessServers_specific_witness :
  preprocessServers [sampleServer 1 Standard; sampleServer 1 WirelessSpeed;
                     sampleServer 2 Perception]
                    [] ["P2"; "W1"; "99"] true
  = ([sampleServer 1 WirelessSpeed; sampleServer 2 Perception], None).
Proof.
  apply (preprocessServers_specific
           [sampleServer 1 Standard; sampleServer 1 WirelessSpeed; sampleServer 2 Perception]
           ["P2"; "W1"; "99"]).
  - reflexivity.
  - cbn. intros [H|[H|[H|[]]]]; discriminate.
Defined.

(** X4: whatever its arguments, [preprocessServers] only drops servers: what
    it returns is a sublist of the servers given, in their order.  It
    returns an error exactly when both lists are non-empty, and with
    filtering off it then returns the servers unchanged. *)
Theorem preprocessServers_only_drops
    (servers : list Server) (excludes specific : list string) (filter : bool) :
  sublist (fst (preprocessServers servers excludes specific filter)) servers /\
  (snd (preprocessServers servers excludes specific filter) = None
   <-> ~ (0 < len excludes /\ 0 < len specific)) /\
  (filter = false -> ~ (0 < len excludes /\ 0 < len specific) ->
   preprocessServers servers excludes specific filter = (servers, None)).
Proof.
  unfold preprocessServers.
  destruct (Z.ltb_spec 0 (len excludes)) as [He|He];
    destruct (Z.ltb_spec 0 (len specific)) as [Hs|Hs]; cbn [andb].
  - split; [apply sublist_nil_l|]. split; [split; [discriminate | tauto] | tauto].
  - split.
    + destruct filter; cbn [fst]; [|reflexivity].
      rewrite excludeLoop_filter. apply filter_sublist.
    + split; [destruct filter; cbn [snd]; split; try reflexivity; lia|].
      intros -> _. reflexivity.
  - split.
    + destruct filter; cbn [fst]; [|reflexivity].
      destruct (negb (contains specific "-1")); cbn [fst]; [|reflexivity].
      rewrite specificLoop_filter. apply filter_sublist.
    + split.
      * destruct filter; [destruct (negb (contains specific "-1"))|];
          cbn [snd]; split; try reflexivity; lia.
      * intros -> _. reflexivity.
  - split; [destruct filter; reflexivity|].
    split; [destruct filter; cbn [snd]; split; try reflexivity; lia|].
    intros -> _. reflexivity.
Qed.

(** *** The families the include list asks for *)

Definition familyFlag (t : ServerType) (flags : bool * bool * bool) : bool :=
  match t with
  | Perception => snd (fst flags)
  | WirelessSpeed => snd flags
  | Standard => fst (fst flags)
  end.

Lemma familyStep_keeps (t : ServerType) (flags : bool * bool * bool) (s : string) :
  familyFlag t flags = true -> familyFlag t (familyStep flags s) = true.
Proof.
  destruct flags as [[g p] w]. unfold familyStep.
  destruct (String.prefix "P" s), (String.prefix "W" s), t; cbn; auto.
Qed.

Lemma familyLoop_keeps (t : ServerType) (specific : list string) :
  forall flags, familyFlag t flags = true ->
  familyFlag t (fold_left familyStep specific flags) = true.
Proof.
  induction specific as [|s rest IH]; intros flags H; cbn [fold_left]; [exact H|].
  apply IH, familyStep_keeps, H.
Qed.

Lemma familyStep_sets (server : Server) (flags : bool * bool * bool) :
  familyFlag (Typ server) (familyStep flags (serverKey server)) = true.
Proof.
  destruct flags as [[g p] w]. unfold familyStep, serverKey.
  destruct (Itoa_no_letter (ID server)) as [HP HW].
  destruct (Typ server); cbn [familyFlag].
  - rewrite HP, HW. reflexivity.
  - unfold String.append. cbn. destruct (Itoa (ID server)); reflexivity.
  - unfold String.append. cbn. destruct (Itoa (ID server)); reflexivity.
Qed.

(** X5: the family of every server that the include list names is asked
    for: if a server's key is among the entries of [--server], the flag of
    its family, as [SpeedTest] computes the three from those entries, is
    set. *)
Theorem serverFamilies_cover (specific : list string) (server : Server) :
  In (serverKey server) specific ->
  familyFlag (Typ server) (serverFamilies specific) = true.
Proof.
  intros Hin. unfold serverFamilies.
  destruct (Z.ltb_spec 0 (len specific)) as [_|Hempty].
  - generalize (false, false, false) as flags.
    induction specific as [|s rest IH]; intros flags; [destruct Hin|].
    cbn [fold_left]. destruct Hin as [-> | Hin].
    + apply familyLoop_keeps, familyStep_sets.
    + apply IH, Hin.
  - destruct specific; [destruct Hin | unfold len in Hempty; cbn in Hempty; lia].
Qed.

Lemma serverFamilies_cover_witness :
  familyFlag Perception (serverFamilies ["7"; "P3"]) = true.
Proof.
  apply (serverFamilies_cover ["7"; "P3"] (sampleServer 3 Perception)).
  right. left. reflexivity.
Defined.

End KeyFacts.

(** ** Provinces: the default and the two matchers *)
Module ProvinceFacts.
Import Go Defs Speedtest GoFacts FilterFacts.
Local Open Scope string_scope.

Definition shanghai : ProvinceInfo :=
  mkProvinceInfo "31" "sh" "上海" "上海市" "121.473667" "31.230525".

(** The three ways a province answers to a name in [getProvInfo]. *)
Definition answersTo (p : ProvinceInfo) (name : string) : Prop :=
  Short p = name \/ occursIn name (ProvName p) \/ occursIn (Short p) name.

Lemma answersTo_bool (p : ProvinceInfo) (name : string) :
  String.eqb (Short p) name || Contains (ProvName p) name || Contains name (Short p) = true
  <-> answersTo p name.
Proof.
  unfold answersTo. rewrite !orb_true_iff, String.eqb_eq, !Contains_occursIn. tauto.
Qed.

Lemma append_empty_r (s : string) : (s ++ "")%string = s.
Proof.
  induction s as [|c s IH]; [reflexivity|].
  change (String c (s ++ "") = String c s). rewrite IH. reflexivity.
Qed.

Lemma occursIn_refl (s : string) : occursIn s s.
Proof.
  exists EmptyString, EmptyString.
  change (s = (s ++ "")%string). rewrite append_empty_r. reflexivity.
Qed.

Lemma occursIn_empty (s : string) : occursIn EmptyString s.
Proof. exists EmptyString, s. reflexivity. Qed.

(** The search of [getProvInfo] stops at the first province that answers. *)
Lemma firstProvince_at (before after : list ProvinceInfo) (p : ProvinceInfo) (name : string) :
  (forall q, In q before -> ~ answersTo q name) ->
  answersTo p name ->
  firstProvince (before ++ p :: after) name = p.
Proof.
  intros Hbefore Hp. induction before as [|q before IH]; cbn [app firstProvince].
  - apply answersTo_bool in Hp. rewrite Hp. reflexivity.
  - destruct (String.eqb (Short q) name || Contains (ProvName q) name
              || Contains name (Short q)) eqn:Hq.
    + apply answersTo_bool in Hq. exfalso. apply (Hbefore q); [left; reflexivity | exact Hq].
    + apply IH. intros r Hr. apply Hbefore. right. exact Hr.
Qed.

Lemma firstProvince_cases (provinces : list ProvinceInfo) (name : string) :
  (firstProvince provinces name = zeroProvince /\
   forall q, In q provinces -> ~ answersTo q name) \/
  (In (firstProvince provinces name) provinces /\
   answersTo (firstProvince provinces name) name).
Proof.
  induction provinces as [|p rest IH]; cbn [firstProvince].
  - left. split; [reflexivity | intros q []].
  - destruct (String.eqb (Short p) name || Contains (ProvName p) name
              || Contains name (Short p)) eqn:Hp.
    + right. split; [left; reflexivity | apply answersTo_bool, Hp].
    + destruct IH as [[Hz Hnone] | [Hin Hans]].
      * left. split; [exact Hz|]. intros q [<-|Hq]; [|apply Hnone, Hq].
        intros Hq. apply answersTo_bool in Hq. congruence.
      * right. split; [right; exact Hin | exact Hans].
Qed.

(** X6: [getProvInfo] never returns a province without an id: it returns
    the Shanghai default, or a listed province that answers to the
    non-empty name.  The empty name gives the default. *)
Theorem getProvInfo_result (provinces : list ProvinceInfo) (name : string) :
  ProvID (getProvInfo provinces name) <> "" /\
  (getProvInfo provinces name = shanghai \/
   (name <> "" /\ In (getProvInfo provinces name) provinces /\
    answersTo (getProvInfo provinces name) name)) /\
  getProvInfo provinces "" = shanghai.
Proof.
  split; [|split; [|reflexivity]].
  - unfold getProvInfo.
    destruct (String.eqb_spec name "") as [->|Hname]; cbn [negb]; [discriminate|].
    destruct (String.eqb_spec (ProvID (firstProvince provinces name)) "") as [Hid|Hid];
      cbn [negb]; [discriminate | exact Hid].
  - unfold getProvInfo.
    destruct (String.eqb_spec name "") as [->|Hname]; cbn [negb]; [left; reflexivity|].
    destruct (String.eqb_spec (ProvID (firstProvince provinces name)) "") as [Hid|Hid];
      cbn [negb]; [left; reflexivity|].
    right. split; [exact Hname|].
    destruct (firstProvince_cases provinces name) as [[Hz _] | H]; [|exact H].
    rewrite Hz in Hid. contradiction.
Qed.

(** X7: the first listed province that answers to the name decides: it is
    returned when it has an id, and when it has none the Shanghai default
    is returned, whatever follows it in the list. *)
Theorem getProvInfo_first_match
    (before after : list ProvinceInfo) (p : ProvinceInfo) (name : string) :
  name <> "" ->
  (forall q, In q before -> ~ answersTo q name) ->
  answersTo p name ->
  (ProvID p <> "" -> getProvInfo (before ++ p :: after) name = p) /\
  (ProvID p = "" -> getProvInfo (before ++ p :: after) name = shanghai).
Proof.
  intros Hname Hbefore Hp. unfold getProvInfo.
  destruct (String.eqb_spec name "") as [H|_]; [contradiction|]. cbn [negb].
  rewrite (firstProvince_at before after p name Hbefore Hp).
  destruct (String.eqb_spec (ProvID p) "") as [Hid|Hid]; cbn [negb];
    split; intros H; try reflexivity; contradiction.
Qed.

Lemma getProvInfo_first_match_witness :
  getProvInfo [mkProvinceInfo "11" "bj" "北京" "北京市" "116.4" "39.9";
               mkProvinceInfo "" "js" "江苏" "江苏省" "118.8" "32.1";
               mkProvinceInfo "32" "js" "江苏" "江苏省" "118.8" "32.1"] "江苏省"
  = shanghai.
Proof.
  apply (getProvInfo_first_match
           [mkProvinceInfo "11" "bj" "北京" "北京市" "116.4" "39.9"]
           [mkProvinceInfo "32" "js" "江苏" "江苏省" "118.8" "32.1"]
           (mkProvinceInfo "" "js" "江苏" "江苏省" "118.8" "32.1") "江苏省").
  - discriminate.
  - intros q [<-|[]] Hq. apply answersTo_bool in Hq. vm_compute in Hq. discriminate.
  - apply answersTo_bool. vm_compute. reflexivity.
  - reflexivity.
Defined.

(** Whatever [checkProv] accepts for a row, [getProvInfo] accepts too. *)
Lemma provMatches_answersTo (p : ProvinceInfo) (val : string) :
  provMatches p val -> answersTo p val.
Proof.
  intros [H | [H | H]]; [left; exact H | | right; right; exact H].
  right. left. rewrite H. apply occursIn_refl.
Qed.

(** X8: the two matchers agree one way.  If [checkProv] accepts a non-empty
    field for a list of provinces that all have an id, then [getProvInfo]
    on that list and that field as the name returns a listed province that
    answers to it, not the default. *)
Theorem checkProv_then_getProvInfo (provinces : list ProvinceInfo) (val : string) :
  checkProv provinces val = true ->
  val <> "" ->
  (forall p, In p provinces -> ProvID p <> "") ->
  In (getProvInfo provinces val) provinces /\
  answersTo (getProvInfo provinces val) val.
Proof.
  intros Hcheck Hval Hids.
  apply checkProv_spec in Hcheck as (v & Hv & Hmatch).
  apply provMatches_answersTo in Hmatch.
  destruct (firstProvince_cases provinces val) as [[_ Hnone] | [Hin Hans]];
    [exfalso; exact (Hnone v Hv Hmatch)|].
  unfold getProvInfo.
  destruct (String.eqb_spec val "") as [H|_]; [contradiction|]. cbn [negb].
  destruct (String.eqb_spec (ProvID (firstProvince provinces val)) "") as [Hid|_];
    [exfalso; exact (Hids _ Hin Hid)|].
  cbn [negb]. split; assumption.
Qed.

Lemma checkProv_then_getProvInfo_witness :
  let beijing := mkProvinceInfo "11" "bj" "北京" "北京市" "116.4" "39.9" in
  In (getProvInfo [beijing] "北京市") [beijing] /\ answersTo (getProvInfo [beijing] "北京市") "北京市".
Proof.
  intros beijing.
  apply (checkProv_then_getProvInfo [beijing] "北京市").
  - reflexivity.
  - discriminate.
  - intros p [<-|[]]. discriminate.
Defined.

(** The other way fails: a name inside the full name is enough for
    [getProvInfo] and not for [checkProv]. *)
Example getProvInfo_wider_than_checkProv :
  let hu := mkProvinceInfo "31" "sh" "沪" "上海市" "121.4" "31.2" in
  getProvInfo [hu] "上海" = hu /\ checkProv [hu] "上海" = false.
Proof. split; reflexivity. Qed.

(** X9: a province row whose short name is empty matches every field in
    [checkProv], because the empty string occurs in every string. *)
Theorem checkProv_empty_short (arr : list ProvinceInfo) (v : ProvinceInfo) (val : string) :
  In v arr -> Short v = "" -> checkProv arr val = true.
Proof.
  intros Hin Hshort. apply checkProv_spec. exists v. split; [exact Hin|].
  right. right. rewrite Hshort. apply occursIn_empty.
Qed.

Lemma checkProv_empty_short_witness :
  checkProv [prov "京" "北京市"; prov "" "未知"] "广东" = true.
Proof.
  apply (checkProv_empty_short [prov "京" "北京市"; prov "" "未知"] (prov "" "未知") "广东").
  - right. left. reflexivity.
  - reflexivity.
Defined.

End ProvinceFacts.

(** ** Random tokens and the registration request *)
Module TokenFacts.
Import Go Defs Speedtest GoFacts CodecFacts.
Local Open Scope string_scope.
Local Open Scope Z_scope.

(** The alphabet [GetRandom] draws from. *)
Definition alphabet (tok : string) : list byte :=
  list_byte_of_string (if String.eqb tok "" then defaultTok else tok).

Lemma alphabet_nonempty (tok : string) : 0 < len (alphabet tok).
Proof.
  unfold alphabet. destruct (String.eqb_spec tok "") as [->|Hne]; [reflexivity|].
  destruct tok; [contradiction|]. unfold len. cbn. lia.
Qed.

Lemma randomLoop_returns (bs : list byte) (draw : nat -> Z) :
  0 < len bs ->
  forall count i res,
  exists chars,
    randomLoop bs draw i count res = Ret (res ++ chars)%list /\
    List.length chars = count /\
    Forall (fun b => In b bs) chars.
Proof.
  intros Hbs. induction count as [|count IH]; intros i res.
  - exists []. rewrite app_nil_r. repeat split; constructor.
  - cbn [randomLoop]. unfold Intn.
    destruct (Z.leb_spec (len bs) 0) as [H|_]; [lia|]. cbn [bind].
    pose proof (Z.mod_pos_bound (draw i) (len bs) Hbs) as Hk.
    destruct (bs !! Z.to_nat (draw i mod len bs)) as [b|] eqn:Hb.
    + destruct (IH (S i) (res ++ [b])%list) as (chars & Hrun & Hlen & Hall).
      exists (b :: chars). rewrite Hrun, <- app_assoc. cbn [app List.length].
      split; [reflexivity|]. split; [lia|].
      constructor; [|exact Hall].
      apply list_elem_of_In, list_elem_of_lookup. eauto.
    + apply lookup_ge_None in Hb. unfold len in *. lia.
Qed.

Lemma string_of_list_byte_length (l : list byte) :
  lenString (string_of_list_byte l) = len l.
Proof.
  unfold lenString, len. f_equal.
  induction l as [|b l IH]; [reflexivity|].
  change (S (String.length (string_of_list_byte l)) = S (List.length l)).
  rewrite IH. reflexivity.
Qed.

Lemma lenString_append (a b : string) :
  lenString (a ++ b) = lenString a + lenString b.
Proof.
  unfold lenString. induction a as [|c a IH];
    [change (Z.of_nat (String.length b) = 0 + Z.of_nat (String.length b)); lia|].
  change (Z.of_nat (S (String.length (a ++ b))) = Z.of_nat (S (String.length a)) + Z.of_nat (String.length b)).
  lia.
Qed.

(** The run of [GetRandom]: it returns, with [l] characters of the
    alphabet after the prefix. *)
Lemma GetRandom_returns (draw : nat -> Z) (tok pre : string) (l : Z) :
  exists chars : list byte,
    GetRandom draw tok pre l = Ret (pre ++ string_of_list_byte chars) /\
    len chars = Z.max 0 l /\
    Forall (fun b => In b (alphabet tok)) chars.
Proof.
  destruct (randomLoop_returns (alphabet tok) draw (alphabet_nonempty tok)
              (Z.to_nat l) 0%nat []) as (chars & Hrun & Hlen & Hall).
  exists chars. unfold GetRandom. fold (alphabet tok). rewrite Hrun. cbn [bind app].
  split; [reflexivity|]. split; [unfold len; lia | exact Hall].
Qed.

(** X10: [GetRandom] never panics.  It returns the prefix followed by [l]
    characters (none when [l] is negative), each one a character of the
    alphabet given, or of the 62 letters and digits when the alphabet given
    is empty. *)
Theorem GetRandom_token (draw : nat -> Z) (tok pre : string) (l : Z) :
  exists chars : list byte,
    GetRandom draw tok pre l = Ret (pre ++ string_of_list_byte chars) /\
    len chars = Z.max 0 l /\
    Forall (fun b => In b (alphabet tok)) chars /\
    lenString (pre ++ string_of_list_byte chars) = lenString pre + Z.max 0 l.
Proof.
  destruct (GetRandom_returns draw tok pre l) as (chars & Hrun & Hl & Hall).
  exists chars. split; [exact Hrun|]. split; [exact Hl|]. split; [exact Hall|].
  rewrite lenString_append, string_of_list_byte_length, Hl. reflexivity.
Qed.

(** The JSON text that [Register] encrypts for a device id. *)
Definition registerJson (id : string) : string :=
  "{" ++ dquote ++ "deviceId" ++ dquote ++ ": " ++ dquote ++ id ++ dquote ++ "}".

Lemma EncodeToString_length (l : list byte) :
  lenString (Hex.EncodeToString l) = 2 * len l.
Proof.
  unfold lenString, len. induction l as [|b l IH]; [reflexivity|].
  cbn [Hex.EncodeToString String.length List.length]. lia.
Qed.

Lemma registerJson_length (id : string) :
  lenString (registerJson id) = 16 + lenString id.
Proof.
  unfold registerJson, dquote.
  rewrite !lenString_append. unfold lenString. cbn [String.length]. lia.
Qed.

Lemma blockCount_32 (data : list byte) : len data = 32 -> blockCount data = 5%nat.
Proof. intros H. unfold blockCount, padCount. rewrite H. reflexivity. Qed.

(** X11: [Register] never panics before it sends its request.  The device id
    is 16 hexadecimal digits, the key is "taier" and six decimal digits, and
    the cipher key [key[:8]] is "taier" and the first three of them.  The
    payload is 80 hexadecimal characters, and [Decrypt] under the cipher
    key turns it back into the JSON text with the device id. *)
Theorem registerRequest_returns (drawDid drawKey : nat -> Z) :
  exists (r : registration) (idChars keyChars : list byte),
    registerRequest drawDid drawKey = Ret r /\
    did r = string_of_list_byte idChars /\
    len idChars = 16 /\
    Forall (fun b => In b (list_byte_of_string "0123456789abcdef")) idChars /\
    key r = "taier" ++ string_of_list_byte keyChars /\
    len keyChars = 6 /\
    Forall (fun b => In b (list_byte_of_string "0123456789")) keyChars /\
    Encrypt (registerJson (did r)) ("taier" ++ string_of_list_byte (firstn 3 keyChars))
    = Ret (pl r) /\
    Decrypt (pl r) ("taier" ++ string_of_list_byte (firstn 3 keyChars))
    = Ret (list_byte_of_string (registerJson (did r))) /\
    lenString (pl r) = 80 /\
    uri r = apiPerceptionBaseUrl ++ "/screen/taier/app/equipment/info?deviceId=" ++ did r
              ++ "&key=" ++ key r ++ "&json=" ++ pl r.
Proof.
  destruct (GetRandom_returns drawDid "0123456789abcdef" "" 16)
    as (idChars & Hdid & Hidlen & Hidall).
  destruct (GetRandom_returns drawKey "0123456789" "taier" 6)
    as (keyChars & Hkey & Hkeylen & Hkeyall).
  change (Z.max 0 16) with 16 in Hidlen. change (Z.max 0 6) with 6 in Hkeylen.
  change ("" ++ string_of_list_byte idChars) with (string_of_list_byte idChars) in Hdid.
  set (id := string_of_list_byte idChars) in *.
  set (key8 := "taier" ++ string_of_list_byte (firstn 3 keyChars)).
  assert (Hslice : sliceTo ("taier" ++ string_of_list_byte keyChars) 8 = Ret key8
                   /\ lenString key8 = 8).
  { unfold key8, len in *.
    do 6 (destruct keyChars as [|? keyChars]; [cbn in Hkeylen; lia|]).
    destruct keyChars; [|cbn in Hkeylen; lia].
    split; reflexivity. }
  destruct Hslice as [Hslice Hkey8].
  assert (Hjson : len (list_byte_of_string (registerJson id)) = 32).
  { rewrite list_byte_of_string_length, registerJson_length. unfold id.
    rewrite string_of_list_byte_length. lia. }
  pose proof (Encrypt_returns (registerJson id) key8 Hkey8) as Henc.
  pose proof (Decrypt_returns (registerJson id) key8 Hkey8) as Hdec.
  exists (mkRegistration id ("taier" ++ string_of_list_byte keyChars)
            (Hex.EncodeToString (ciphertext (registerJson id) key8))
            (apiPerceptionBaseUrl ++ "/screen/taier/app/equipment/info?deviceId=" ++ id
               ++ "&key=" ++ ("taier" ++ string_of_list_byte keyChars)
               ++ "&json=" ++ Hex.EncodeToString (ciphertext (registerJson id) key8))),
         idChars, keyChars.
  cbn [did key pl uri].
  split.
  { unfold registerRequest. rewrite Hdid. cbn [bind]. rewrite Hkey. cbn [bind].
    rewrite Hslice. cbn [bind]. fold (registerJson id). rewrite Henc. reflexivity. }
  repeat (split; [first [reflexivity | assumption]|]).
  split; [|reflexivity].
  rewrite EncodeToString_length. unfold len. rewrite ciphertext_length.
  rewrite (blockCount_32 _ Hjson). reflexivity.
Qed.

End TokenFacts.

(** ** The credential codec: panics, shape of the text, blocks *)
Module CodecEdgeFacts.
Import Go Defs Speedtest GoFacts DESFacts CodecFacts.
Local Open Scope string_scope.
Local Open Scope Z_scope.

Definition hexDigits : list ascii := list_ascii_of_string Hex.hextable.

Lemma hexDigit_of_byte (v : byte) :
  In (Hex.hexDigit (N.shiftr (Byte.to_N v) 4)) hexDigits /\
  In (Hex.hexDigit (N.land (Byte.to_N v) 15)) hexDigits.
Proof. destruct v; split; vm_compute; tauto. Qed.

Lemma EncodeToString_digits (l : list byte) :
  Forall (fun c => In c hexDigits) (list_ascii_of_string (Hex.EncodeToString l)).
Proof.
  induction l as [|v l IH]; [constructor|].
  destruct (hexDigit_of_byte v) as [Hhi Hlo].
  cbn [Hex.EncodeToString list_ascii_of_string].
  constructor; [exact Hhi|]. constructor; [exact Hlo | exact IH].
Qed.

Lemma EncodeToString_len (l : list byte) :
  lenString (Hex.EncodeToString l) = 2 * len l.
Proof.
  unfold lenString, len. induction l as [|b l IH]; [reflexivity|].
  cbn [Hex.EncodeToString String.length List.length]. lia.
Qed.

Lemma EncodeToString_app (a b : list byte) :
  Hex.EncodeToString (a ++ b) = (Hex.EncodeToString a ++ Hex.EncodeToString b)%string.
Proof.
  induction a as [|v a IH]; [reflexivity|].
  cbn [app Hex.EncodeToString]. rewrite IH. reflexivity.
Qed.

Lemma blockCount_eq (data : list byte) :
  Z.of_nat (blockCount data) = len data / 8 + 1.
Proof.
  unfold blockCount, padCount. pose proof (len_nonneg data) as Hlen.
  pose proof (Z.div_mod (len data) 8 ltac:(lia)) as Hdm.
  pose proof (Z.mod_pos_bound (len data) 8 ltac:(lia)) as Hm.
  replace (len data + (8 - len data mod 8)) with ((len data / 8 + 1) * 8) by lia.
  rewrite Z.div_mul by lia.
  pose proof (Z.div_pos (len data) 8 ltac:(lia) ltac:(lia)). lia.
Qed.

(** X12: [Encrypt] panics exactly when the key is not eight bytes long, with
    the cipher's key size error; its own panic for a length that is not a
    multiple of the block size never fires.  For a key of eight bytes the
    text has 16 characters for each started block of the plaintext plus
    one block, all of them digits or the letters a to f. *)
Theorem Encrypt_panics_only_on_key_size (src key : string) :
  (lenString key = 8 ->
   exists text,
     Encrypt src key = Ret text /\
     lenString text = 16 * (lenString src / 8 + 1) /\
     Forall (fun c => In c hexDigits) (list_ascii_of_string text)) /\
  (lenString key <> 8 -> Encrypt src key = Panic "crypto/des: invalid key size").
Proof.
  split.
  - intros Hkey. exists (Hex.EncodeToString (ciphertext src key)).
    split; [apply Encrypt_returns, Hkey|]. split; [|apply EncodeToString_digits].
    rewrite EncodeToString_len. unfold len at 1. rewrite ciphertext_length.
    rewrite <- list_byte_of_string_length.
    pose proof (blockCount_eq (list_byte_of_string src)). lia.
  - intros Hkey. unfold Encrypt, DES.NewCipher.
    rewrite list_byte_of_string_length.
    destruct (Z.eqb_spec (lenString key) 8) as [H|_]; [contradiction | reflexivity].
Qed.

(** X13: under a key of eight bytes [Encrypt] gives different texts for
    different plaintexts. *)
Theorem Encrypt_injective (p q k : string) :
  lenString k = 8 -> Encrypt p k = Encrypt q k -> p = q.
Proof.
  intros Hk Heq.
  rewrite !Encrypt_returns in Heq by exact Hk. injection Heq as Heq.
  pose proof (Decrypt_returns p k Hk) as Hp.
  rewrite Heq, (Decrypt_returns q k Hk) in Hp. injection Hp as Hp.
  rewrite <- (string_of_list_byte_of_string p), <- (string_of_list_byte_of_string q).
  rewrite Hp. reflexivity.
Qed.

Lemma Encrypt_injective_witness : "31b2" = "31b2".
Proof.
  apply (Encrypt_injective "31b2" "31b2" "taier042"); reflexivity.
Defined.

(** *** Blocks are encrypted one by one *)

Lemma list_byte_of_string_app (a b : string) :
  list_byte_of_string (a ++ b) = (list_byte_of_string a ++ list_byte_of_string b)%list.
Proof.
  induction a as [|c a IH]; [reflexivity|].
  change (byte_of_ascii c :: list_byte_of_string (a ++ b)
          = byte_of_ascii c :: (list_byte_of_string a ++ list_byte_of_string b)%list).
  rewrite IH. reflexivity.
Qed.

Lemma padCount_after_blocks (A B : list byte) :
  len A mod 8 = 0 -> padCount (A ++ B) 8 = padCount B 8.
Proof.
  intros HA. unfold padCount. f_equal.
  replace (len (A ++ B)) with (len A + len B) by (unfold len; rewrite length_app; lia).
  rewrite Z.add_mod, HA, Z.add_0_l, Z.mod_mod by lia. reflexivity.
Qed.

Lemma perBlock_app (f : list byte -> list byte) (ka kb : nat) :
  forall A rest : list byte,
  List.length A = (8 * ka)%nat ->
  perBlock f (ka + kb) (A ++ rest) = (perBlock f ka A ++ perBlock f kb rest)%list.
Proof.
  induction ka as [|ka IH]; intros A rest HA.
  - destruct A; [reflexivity | discriminate].
  - cbn [Nat.add perBlock].
    rewrite firstn_app, skipn_app.
    replace (8 - List.length A)%nat with 0%nat by lia.
    rewrite firstn_O, skipn_O, app_nil_r.
    rewrite IH by (rewrite length_skipn; lia).
    rewrite app_assoc. reflexivity.
Qed.

(** X14: the cipher runs on each block by itself.  For a key of eight bytes
    and a plaintext [a] of whole blocks, the text of [a ++ b] is a head of
    two characters a byte of [a], the same for every [b], followed by the
    text of [b] alone. *)
Theorem Encrypt_blockwise (a k : string) :
  lenString k = 8 -> lenString a mod 8 = 0 ->
  exists head : string,
    lenString head = 2 * lenString a /\
    forall b : string,
    exists tail : string,
      Encrypt b k = Ret tail /\ Encrypt (a ++ b) k = Ret (head ++ tail).
Proof.
  intros Hk Ha.
  set (A := list_byte_of_string a).
  assert (HA : len A mod 8 = 0) by (unfold A; rewrite list_byte_of_string_length; exact Ha).
  set (ka := Z.to_nat (len A / 8)).
  assert (HAlen : List.length A = (8 * ka)%nat).
  { pose proof (Z.div_mod (len A) 8 ltac:(lia)) as Hdm. pose proof (len_nonneg A).
    unfold ka, len in *. lia. }
  set (f := DES.cryptBlock (DES.generateSubkeys (list_byte_of_string k))).
  exists (Hex.EncodeToString (perBlock f ka A)). split.
  - rewrite EncodeToString_len. unfold len.
    rewrite (perBlock_length f (fun src => cryptBlock_length _ src)).
    rewrite <- list_byte_of_string_length. fold A. unfold len. lia.
  - intros b. exists (Hex.EncodeToString (ciphertext b k)).
    split; [apply Encrypt_returns, Hk|].
    rewrite Encrypt_returns by exact Hk. f_equal.
    rewrite <- EncodeToString_app. f_equal.
    unfold ciphertext. fold f. rewrite list_byte_of_string_app. fold A.
    set (B := list_byte_of_string b).
    assert (Hpadded : padded (A ++ B) = (A ++ padded B)%list).
    { unfold padded. rewrite padCount_after_blocks by exact HA.
      rewrite app_assoc. reflexivity. }
    assert (Hcount : blockCount (A ++ B) = (ka + blockCount B)%nat).
    { apply Nat2Z.inj. rewrite Nat2Z.inj_add, !blockCount_eq.
      replace (len (A ++ B)) with (len B + len A / 8 * 8).
      - rewrite Z.div_add by lia. pose proof (len_nonneg A).
        pose proof (Z.div_pos (len A) 8 ltac:(lia) ltac:(lia)). unfold ka. lia.
      - pose proof (Z.div_mod (len A) 8 ltac:(lia)).
        unfold len in *. rewrite length_app. lia. }
    rewrite Hpadded, Hcount. apply perBlock_app. exact HAlen.
Qed.

Lemma Encrypt_blockwise_witness :
  exists head : string,
    lenString head = 2 * lenString "abcdefgh" /\
    forall b : string,
    exists tail : string,
      Encrypt b "taier123" = Ret tail /\
      Encrypt ("abcdefgh" ++ b) "taier123" = Ret (head ++ tail).
Proof.
  apply (Encrypt_blockwise "abcdefgh" "taier123"); reflexivity.
Defined.

(** *** What [Decrypt] accepts *)

(** X15: [PKCS5UnPadding] reads the last byte only.  On bytes that end in
    [b] it cuts [b] bytes off the end, whatever they are, and panics when
    [b] is more than there are; so a last byte of 0 returns all the bytes,
    and on no bytes at all it panics. *)
Theorem PKCS5UnPadding_reads_last_byte (body : list byte) (b : byte) :
  PKCS5UnPadding (body ++ [b])
  = (if len body + 1 - int_of_byte b <? 0 then Panic "slice bounds out of range"
     else Ret (firstn (Z.to_nat (len body + 1 - int_of_byte b)) (body ++ [b]))) /\
  PKCS5UnPadding (body ++ [x00]) = Ret (body ++ [x00])%list /\
  PKCS5UnPadding [] = Panic "index out of range".
Proof.
  assert (Hgen : forall c : byte,
             PKCS5UnPadding (body ++ [c])
             = (if len body + 1 - int_of_byte c <? 0 then Panic "slice bounds out of range"
                else Ret (firstn (Z.to_nat (len body + 1 - int_of_byte c)) (body ++ [c])))).
  { intros c. unfold PKCS5UnPadding.
    assert (Hlen : len (body ++ [c]) = len body + 1)
      by (unfold len; rewrite length_app; cbn; lia).
    rewrite Hlen.
    replace (Z.to_nat (len body + 1 - 1)) with (List.length body) by (unfold len; lia).
    rewrite lookup_app_r, Nat.sub_diag by lia. reflexivity. }
  split; [apply Hgen|]. split; [|reflexivity].
  rewrite Hgen. change (int_of_byte x00) with 0. rewrite Z.sub_0_r.
  destruct (Z.ltb_spec (len body + 1) 0) as [H|_]; [pose proof (len_nonneg body); lia|].
  f_equal. apply firstn_all2. unfold len. rewrite length_app. cbn. lia.
Qed.

Lemma DecodeString_len (s : string) :
  (forall data, Hex.DecodeString s = (data, None) -> lenString s = 2 * len data) /\
  (forall c data, Hex.DecodeString (String c s) = (data, None) ->
                  lenString (String c s) = 2 * len data).
Proof.
  induction s as [|d s [IH1 IH2]].
  - split.
    + intros data [= <-]. reflexivity.
    + intros c data H. cbn in H. destruct (Hex.fromHexChar c); discriminate.
  - split; [exact (IH2 d)|].
    intros c data H. cbn [Hex.DecodeString] in H.
    destruct (Hex.fromHexChar c) as [hi|]; [|discriminate].
    destruct (Hex.fromHexChar d) as [lo|]; [|discriminate].
    destruct (Hex.DecodeString s) as [out err] eqn:Hs.
    injection H as <- ->. specialize (IH1 out eq_refl).
    unfold lenString, len in *. cbn [String.length List.length]. lia.
Qed.

(** X16: [Decrypt] returns only on well-formed input: the key is eight bytes
    long and the text is an even number of hexadecimal digits that stand
    for at least one whole block.  What it returns is never longer than the
    bytes decoded. *)
Theorem Decrypt_returns_only_well_formed (src key : string) (out : list byte) :
  Decrypt src key = Ret out ->
  lenString key = 8 /\
  exists data : list byte,
    Hex.DecodeString src = (data, None) /\
    lenString src = 2 * len data /\
    0 < len data /\ len data mod 8 = 0 /\
    len out <= len data.
Proof.
  unfold Decrypt, DES.NewCipher, DES.BlockSize.
  destruct (Hex.DecodeString src) as [data [err|]] eqn:Hdec; [discriminate|].
  rewrite list_byte_of_string_length.
  destruct (Z.eqb_spec (lenString key) 8) as [Hkey|_]; [|discriminate].
  destruct (Z.eqb_spec (Z.rem (len data) 8) 0) as [Hrem|_]; [|discriminate].
  cbn [negb]. intros Hrun.
  pose proof (len_nonneg data) as Hnonneg.
  rewrite Z.rem_mod_nonneg in Hrem by lia.
  set (k := Z.to_nat (len data / 8)).
  assert (Hlen : List.length data = (8 * k)%nat).
  { pose proof (Z.div_mod (len data) 8 ltac:(lia)). unfold k, len in *. lia. }
  rewrite Decrypt_as_Encrypt in Hrun.
  rewrite (blockLoop_Encrypt _ k) in Hrun by (rewrite ?repeat_length; exact Hlen).
  cbn [bind DES.subkeys] in Hrun.
  set (plain := perBlock _ k data) in Hrun.
  assert (Hplain : List.length plain = (8 * k)%nat).
  { unfold plain. apply perBlock_length. intros s0. apply cryptBlock_length. }
  split; [exact Hkey|]. exists data.
  split; [reflexivity|]. split; [apply (proj1 (DecodeString_len src)), Hdec|].
  unfold PKCS5UnPadding in Hrun.
  destruct (plain !! Z.to_nat (len plain - 1)) as [b|] eqn:Hb; [|discriminate].
  apply lookup_lt_Some in Hb.
  destruct (len plain - int_of_byte b <? 0); [discriminate|].
  injection Hrun as <-.
  split; [unfold len in *; lia|]. split; [exact Hrem|].
  unfold len. rewrite length_firstn. lia.
Qed.

Lemma Decrypt_returns_only_well_formed_witness :
  lenString "taier123" = 8 /\
  exists data : list byte,
    Hex.DecodeString "9206b10ae9dc18a51675da6fafe62563" = (data, None) /\
    lenString "9206b10ae9dc18a51675da6fafe62563" = 2 * len data /\
    0 < len data /\ len data mod 8 = 0 /\
    len (list_byte_of_string "abcdefgh") <= len data.
Proof.
  apply (Decrypt_returns_only_well_formed
           "9206b10ae9dc18a51675da6fafe62563" "taier123" (list_byte_of_string "abcdefgh")).
  vm_compute. reflexivity.
Defined.

End CodecEdgeFacts.

(** ** The byte counter under any run of writes and reads *)
Module CounterRunFacts.
Import Go Defs GoFacts CyclingFacts.

(** One call on the counter: [Write] or [Read], with its buffer. *)
Inductive call : Type :=
| DoWrite (p : list byte)
| DoRead (p : list byte).

(** What a run of calls reported: the counts returned, summed; the bytes
    the reads handed over; how many calls returned an error. *)
Record report : Type := mkReport {
  moved : Z;
  readData : list byte;
  errors : nat
}.

Definition noted (n : Z) (data : list byte) (err : option error) (r : report) : report :=
  mkReport (n + moved r) (data ++ readData r)
           (match err with Some _ => S (errors r) | None => errors r end).

Fixpoint runCalls (c : BytesCounter) (calls : list call) : outcome (report * BytesCounter) :=
  match calls with
  | [] => Ret (mkReport 0 [] 0, c)
  | DoWrite p :: rest =>
      let '((n, err), c1) := Write c p in
      let* more := runCalls c1 rest in
      Ret (noted n [] err (fst more), snd more)
  | DoRead p :: rest =>
      let* rc := Read c p in
      let* more := runCalls (snd rc) rest in
      Ret (noted (snd (fst (fst rc))) (delivered (fst rc)) (snd (fst rc)) (fst more), snd more)
  end.

(** One [Read] on a counter with a reader returns and keeps a reader. *)
Lemma Read_keeps_reader (c : BytesCounter) (p : list byte) (r : Bytes.Reader) :
  reader c = Some r ->
  exists p' n err c' r',
    Read c p = Ret ((p', n, err), c') /\ reader c' = Some r' /\
    0 <= n /\ total c' = wrap_uint64 (total c + n).
Proof.
  intros Hr. unfold Read. rewrite Hr. unfold Bytes.Read.
  destruct (Z.leb_spec (len (Bytes.s r)) (Bytes.i r)) as [Heof|Hin].
  - cbn [pos uploadSize]. exists p, 0, (Some io_EOF).
    destruct (wrap_int (pos c + 0) =? uploadSize c);
      do 2 eexists; (split; [cbn; reflexivity|]); cbn; (split; [reflexivity|]);
      (split; [lia | reflexivity]).
  - unfold Bytes.copy.
    set (k := Nat.min (List.length p) (List.length (skipn (Z.to_nat (Bytes.i r)) (Bytes.s r)))).
    exists (firstn k (skipn (Z.to_nat (Bytes.i r)) (Bytes.s r)) ++ skipn k p), (Z.of_nat k), None.
    cbn [pos uploadSize].
    destruct (wrap_int (pos c + Z.of_nat k) =? uploadSize c);
      do 2 eexists; (split; [cbn; reflexivity|]); cbn; (split; [reflexivity|]);
      (split; [lia | reflexivity]).
Qed.

Lemma runCalls_counts (calls : list call) :
  forall (c : BytesCounter) (r : Bytes.Reader),
  reader c = Some r ->
  exists rep c',
    runCalls c calls = Ret (rep, c') /\
    0 <= moved rep /\
    Total c' mod 2 ^ 64 = (Total c + moved rep) mod 2 ^ 64 /\
    (calls <> [] -> 0 <= Total c' < 2 ^ 64).
Proof.
  induction calls as [|[p|p] rest IH]; intros c r Hr.
  - exists (mkReport 0 [] 0), c. split; [reflexivity|]. cbn [moved].
    split; [lia|]. split; [rewrite Z.add_0_r; reflexivity|].
    intros H. exfalso. apply H. reflexivity.
  - cbn [runCalls Write].
    set (c1 := mkCounter _ _ _ _ _ _).
    destruct (IH c1 r Hr) as (rep & c' & Hrun & Hmoved & Htotal & Hrange).
    rewrite Hrun. cbn [bind fst snd].
    exists (noted (len p) [] None rep), c'. split; [reflexivity|].
    pose proof (len_nonneg p). cbn [moved noted].
    split; [lia|]. split.
    + rewrite Htotal. unfold Total, c1, wrap_uint64. cbn [total].
      rewrite Zplus_mod_idemp_l. f_equal. lia.
    + intros _. destruct rest as [|x rest'].
      * cbn in Hrun. injection Hrun as _ <-. unfold Total, c1, wrap_uint64. cbn [total].
        apply Z.mod_pos_bound. lia.
      * apply Hrange. discriminate.
  - cbn [runCalls].
    destruct (Read_keeps_reader c p r Hr) as (p' & n & err & c1 & r1 & Hread & Hr1 & Hn & Ht1).
    rewrite Hread. cbn [bind fst snd].
    destruct (IH c1 r1 Hr1) as (rep & c' & Hrun & Hmoved & Htotal & Hrange).
    rewrite Hrun. cbn [bind fst snd].
    eexists _, c'. split; [reflexivity|]. cbn [moved noted].
    split; [lia|]. split.
    + rewrite Htotal. unfold Total. rewrite Ht1. unfold wrap_uint64.
      rewrite Zplus_mod_idemp_l. f_equal. lia.
    + intros _. destruct rest as [|x rest'].
      * cbn in Hrun. injection Hrun as _ <-. unfold Total. rewrite Ht1.
        apply Z.mod_pos_bound. lia.
      * apply Hrange. discriminate.
Qed.

(** X17: the total counts what the calls report.  For a counter with a
    reader, any run of [Write] and [Read] calls returns, and the total
    afterwards is the total before plus the counts the calls returned,
    modulo 2^64; so the total has not decreased unless it passed 2^64. *)
Theorem Total_counts_what_moved (c : BytesCounter) (r : Bytes.Reader) (calls : list call) :
  reader c = Some r ->
  0 <= Total c < 2 ^ 64 ->
  exists rep c',
    runCalls c calls = Ret (rep, c') /\
    0 <= moved rep /\
    Total c' = (Total c + moved rep) mod 2 ^ 64 /\
    (Total c + moved rep < 2 ^ 64 -> Total c' = Total c + moved rep /\ Total c <= Total c').
Proof.
  intros Hr Hrange.
  destruct (runCalls_counts calls c r Hr) as (rep & c' & Hrun & Hmoved & Htotal & Hin).
  exists rep, c'. split; [exact Hrun|]. split; [exact Hmoved|].
  assert (Heq : Total c' = (Total c + moved rep) mod 2 ^ 64).
  { destruct calls as [|x rest].
    - cbn in Hrun. injection Hrun as <- <-. cbn. rewrite Z.add_0_r, Z.mod_small; lia.
    - rewrite <- Htotal. symmetry. apply Z.mod_small. apply Hin. discriminate. }
  split; [exact Heq|]. intros Hsmall. rewrite Heq, Z.mod_small by lia. lia.
Qed.

Lemma Total_counts_what_moved_witness :
  exists rep c',
    runCalls (mkCounter 0 5 [x01; x02; x03] (Some (Bytes.NewReader [x01; x02; x03])) false 3)
             [DoWrite [x00; x00]; DoRead [x00; x00]; DoRead [x00; x00]] = Ret (rep, c') /\
    0 <= moved rep /\
    Total c' = (5 + moved rep) mod 2 ^ 64 /\
    (5 + moved rep < 2 ^ 64 -> Total c' = 5 + moved rep /\ 5 <= Total c').
Proof.
  apply (Total_counts_what_moved
           (mkCounter 0 5 [x01; x02; x03] (Some (Bytes.NewReader [x01; x02; x03])) false 3)
           (Bytes.NewReader [x01; x02; x03])
           [DoWrite [x00; x00]; DoRead [x00; x00]; DoRead [x00; x00]]).
  - reflexivity.
  - cbn. lia.
Defined.

Lemma runCalls_serving (P : list byte) (calls : list call) :
  forall c : BytesCounter,
  serving P c ->
  exists rep c',
    runCalls c calls = Ret (rep, c') /\
    serving P c' /\
    errors rep = 0%nat /\
    readData rep = cyclic P (Z.to_nat (pos c)) (List.length (readData rep)) /\
    pos c' = (pos c + len (readData rep)) mod len P.
Proof.
  induction calls as [|[p|p] rest IH]; intros c Hc.
  - exists (mkReport 0 [] 0), c. destruct Hc as [Hpay Hrd Hsize Hpos Hint] eqn:E. clear E.
    split; [reflexivity|]. split; [constructor; assumption|].
    split; [reflexivity|]. split; [reflexivity|].
    cbn [readData]. unfold len at 1. cbn [List.length Z.of_nat].
    rewrite Z.add_0_r, Z.mod_small; [reflexivity | exact Hpos].
  - cbn [runCalls Write].
    set (c1 := mkCounter _ _ _ _ _ _).
    assert (Hc1 : serving P c1) by (destruct Hc; constructor; assumption).
    destruct (IH c1 Hc1) as (rep & c' & Hrun & Hc' & Herr & Hdata & Hpos).
    rewrite Hrun. cbn [bind fst snd].
    exists (noted (len p) [] None rep), c'.
    split; [reflexivity|]. split; [exact Hc'|]. split; [exact Herr|].
    cbn [noted readData app]. split; [exact Hdata | exact Hpos].
  - cbn [runCalls].
    destruct (Read_serving P c p Hc) as (p' & c1 & Hread & Hfirst & _ & Hc1 & Hpos1 & _).
    destruct (IH c1 Hc1) as (rep & c' & Hrun & Hc' & Herr & Hdata & Hpos').
    set (n := Z.min (len p) (len P - pos c)) in *.
    assert (Hn : 0 <= n) by (destruct Hc; unfold n, len in *; lia).
    assert (HP : 0 < len P) by (destruct Hc; lia).
    rewrite Hread. cbn [bind snd fst]. rewrite Hrun. cbn [bind snd fst].
    eexists _, c'. split; [reflexivity|]. split; [exact Hc'|].
    split; [exact Herr|].
    cbn [noted readData]. unfold delivered. cbn [fst snd]. rewrite Hfirst.
    rewrite length_app, cyclic_length. split.
    + rewrite cyclic_app. f_equal. rewrite Hdata at 1.
      rewrite Hpos1, <- cyclic_start_mod.
      rewrite <- (cyclic_start_mod P (Z.to_nat (pos c) + Z.to_nat n)).
      f_equal. destruct Hc.
      rewrite Z2Nat.inj_mod, Z2Nat.inj_add by lia.
      unfold len. rewrite Nat2Z.id. rewrite Nat.Div0.mod_mod. reflexivity.
    + rewrite Hpos', Hpos1. rewrite Zplus_mod_idemp_l. f_equal.
      unfold len. rewrite length_app, cyclic_length. lia.
Qed.

(** The counter after [SetUploadSize(size)] and [GenerateBlob]. *)
Definition sized (size : Z) (src : nat -> byte) : outcome BytesCounter :=
  GenerateBlob (SetUploadSize NewCounter size) (Some src).

Lemma sized_serving (size : Z) (src : nat -> byte) :
  0 < size -> size * 1024 < 2 ^ 63 ->
  exists c0,
    sized size src = Ret c0 /\ serving (payload c0) c0 /\
    len (payload c0) = size * 1024 /\ uploadSize c0 = size * 1024 /\ pos c0 = 0.
Proof.
  intros Hpos Hint.
  assert (Hwrap : wrap_int (size * 1024) = size * 1024).
  { unfold wrap_int. rewrite Z.mod_small; lia. }
  set (P := List.map src (seq 0 (Z.to_nat (size * 1024)))).
  assert (Hlen : len P = size * 1024).
  { unfold len, P. rewrite length_map, length_seq. lia. }
  exists (mkCounter 0 0 P (Some (Bytes.NewReader P)) false (size * 1024)).
  split.
  - unfold sized, GenerateBlob, SetUploadSize, getRandomData.
    cbn [uploadSize pos total mebi NewCounter]. rewrite Hwrap.
    destruct (Z.ltb_spec (size * 1024) 0) as [H|_]; [lia | reflexivity].
  - cbn [payload uploadSize pos]. split; [|split; [exact Hlen | split; reflexivity]].
    constructor; cbn [payload reader uploadSize pos]; try reflexivity; lia.
Qed.

(** X18: for every upload size above 0 (in KiB, the payload fitting an int),
    and every run of [Read] calls with [Write] calls between them: no call
    returns an error, the payload stays the one generated, the position
    after the run is the number of bytes read modulo the payload length, so
    below the upload size, and the bytes read are the payload repeated from
    its start. *)
Theorem Read_cycles_any_size (size : Z) (src : nat -> byte) (calls : list call) :
  0 < size -> size * 1024 < 2 ^ 63 ->
  exists c0 rep c',
    sized size src = Ret c0 /\
    len (payload c0) = size * 1024 /\
    runCalls c0 calls = Ret (rep, c') /\
    errors rep = 0%nat /\
    payload c' = payload c0 /\
    reader c' = Some (Bytes.mkReader (payload c0) (pos c')) /\
    0 <= pos c' < uploadSize c' /\
    pos c' = len (readData rep) mod (size * 1024) /\
    readData rep = cyclic (payload c0) 0 (List.length (readData rep)).
Proof.
  intros Hsize Hint.
  destruct (sized_serving size src Hsize Hint) as (c0 & Hc0 & Hserv & Hlen & Hup & Hpos0).
  destruct (runCalls_serving _ calls c0 Hserv) as (rep & c' & Hrun & Hserv' & Herr & Hdata & Hpos).
  rewrite Hpos0 in Hdata, Hpos. cbn [Z.to_nat] in Hdata. rewrite Z.add_0_l, Hlen in Hpos.
  destruct Hserv' as [Hpay' Hrd' Hsize' Hpos' Hint'].
  exists c0, rep, c'. rewrite Hsize', Hlen in *.
  repeat (split; [first [assumption | reflexivity | lia]|]). exact Hdata.
Qed.

Lemma Read_cycles_any_size_witness :
  exists c0 rep c',
    sized 1 (fun _ => x2a) = Ret c0 /\
    len (payload c0) = 1 * 1024 /\
    runCalls c0 [DoRead (repeat x00 (Z.to_nat 1000)); DoWrite [x00];
                 DoRead (repeat x00 (Z.to_nat 1000))] = Ret (rep, c') /\
    errors rep = 0%nat /\
    payload c' = payload c0 /\
    reader c' = Some (Bytes.mkReader (payload c0) (pos c')) /\
    0 <= pos c' < uploadSize c' /\
    pos c' = len (readData rep) mod (1 * 1024) /\
    readData rep = cyclic (payload c0) 0 (List.length (readData rep)).
Proof.
  apply (Read_cycles_any_size 1 (fun _ => x2a)
           [DoRead (repeat x00 (Z.to_nat 1000)); DoWrite [x00];
            DoRead (repeat x00 (Z.to_nat 1000))]); lia.
Defined.

(** X19: the upload sizes that give no payload.  With a size below 0 (the
    product by 1024 fitting an int) [GenerateBlob] panics on making the
    slice.  With size 0 the payload is empty, and every [Read] returns 0
    bytes and [io.EOF] and leaves the counter as it was. *)
Theorem no_payload_for_size_at_most_0 (src : nat -> byte) (size : Z) (p : list byte) :
  (- 2 ^ 53 < size < 0 ->
   sized size src = Panic "makeslice: len out of range") /\
  exists c0,
    sized 0 src = Ret c0 /\ payload c0 = [] /\
    Read c0 p = Ret ((p, 0, Some io_EOF), c0).
Proof.
  split.
  - intros Hsize. unfold sized, GenerateBlob, SetUploadSize, getRandomData.
    cbn [uploadSize].
    assert (Hwrap : wrap_int (size * 1024) = size * 1024).
    { unfold wrap_int.
      replace ((size * 1024 + 2 ^ 63) mod 2 ^ 64) with (size * 1024 + 2 ^ 63);
        [lia | symmetry; apply Z.mod_small; lia]. }
    rewrite Hwrap. destruct (Z.ltb_spec (size * 1024) 0) as [_|H]; [reflexivity | lia].
  - eexists. split; [reflexivity|]. split; reflexivity.
Qed.

End CounterRunFacts.

(** ** Selection: the least latency, and no index out of range *)
Module FastestFacts.
Import Go Defs Speedtest SelectionFacts.

(** A latency above 0, as the loop tests it. *)
Definition aboveZero (x : Float64.float64) : Prop :=
  Float64.ltb Float64.zero x = true.

Lemma aboveZero_cases (x : Float64.float64) :
  aboveZero x -> x = S754_infinity false \/ exists m e, x = S754_finite false m e.
Proof.
  unfold aboveZero. destruct x as [s|s| |s m e]; try destruct s; cbn; try discriminate; eauto.
Qed.

Lemma leb_finite (m1 m2 : positive) (e1 e2 : Z) :
  Float64.leb (S754_finite false m1 e1) (S754_finite false m2 e2) = true
  <-> e1 < e2 \/ (e1 = e2 /\ (m1 <= m2)%positive).
Proof.
  unfold Float64.leb, SFleb, SFcompare.
  change (Pos.compare_cont Eq m1 m2) with (Pos.compare m1 m2).
  destruct (Z.compare_spec e1 e2) as [He|He|He].
  - destruct (Pos.compare_spec m1 m2) as [Hm|Hm|Hm]; split; intros H; try discriminate;
      try reflexivity; lia.
  - split; [intros _; lia | reflexivity].
  - split; [discriminate | lia].
Qed.

Lemma leb_total (a b : Float64.float64) :
  aboveZero a -> aboveZero b -> Float64.leb a b = false -> Float64.leb b a = true.
Proof.
  intros Ha Hb Hab.
  destruct (aboveZero_cases a Ha) as [-> | (m1 & e1 & ->)];
    destruct (aboveZero_cases b Hb) as [-> | (m2 & e2 & ->)];
    try reflexivity; try discriminate.
  apply leb_finite.
  assert (Hnot : ~ (e1 < e2 \/ (e1 = e2 /\ (m1 <= m2)%positive))).
  { intros H. apply leb_finite in H. congruence. }
  lia.
Qed.

Lemma leb_trans (a b c : Float64.float64) :
  aboveZero a -> aboveZero b -> aboveZero c ->
  Float64.leb a b = true -> Float64.leb b c = true -> Float64.leb a c = true.
Proof.
  intros Ha Hb Hc Hab Hbc.
  destruct (aboveZero_cases a Ha) as [-> | (m1 & e1 & ->)];
    destruct (aboveZero_cases b Hb) as [-> | (m2 & e2 & ->)];
    destruct (aboveZero_cases c Hc) as [-> | (m3 & e3 & ->)];
    try reflexivity; try discriminate.
  apply leb_finite. apply leb_finite in Hab, Hbc. lia.
Qed.

Lemma leb_refl (a : Float64.float64) : aboveZero a -> Float64.leb a a = true.
Proof.
  intros Ha. destruct (aboveZero_cases a Ha) as [-> | (m & e & ->)]; [reflexivity|].
  apply leb_finite. lia.
Qed.

Section Loop.

Variable pingList : gmap Z Float64.float64.

(** The best so far has a result, above 0 and at most every result above
    0 among the entries [seen]. *)
Definition leastOf (seen : Z * Float64.float64 -> Prop) (best : Z) : Prop :=
  exists pb, pingList !! best = Some pb /\ aboveZero pb /\
    forall entry, seen entry -> aboveZero (snd entry) -> Float64.leb pb (snd entry) = true.

Lemma fastestStep_least (seen : Z * Float64.float64 -> Prop) (best : Z)
    (entry : Z * Float64.float64) :
  pingList !! fst entry = Some (snd entry) ->
  leastOf seen best ->
  leastOf (fun e => seen e \/ e = entry) (fastestStep pingList best entry).
Proof.
  intros Hentry (pb & Hbest & Hpos & Hleast).
  unfold fastestStep, pingAt. rewrite Hbest.
  change (default Float64.zero (Some pb)) with pb.
  destruct (Float64.ltb Float64.zero (snd entry)) eqn:Hp; cbn [andb].
  - destruct (Float64.leb (snd entry) pb) eqn:Hle.
    + exists (snd entry). split; [exact Hentry|]. split; [exact Hp|].
      intros e [He | ->] Hpe.
      * apply (leb_trans _ pb); auto.
      * apply leb_refl. exact Hp.
    + exists pb. split; [exact Hbest|]. split; [exact Hpos|].
      intros e [He | ->] Hpe; [auto|]. apply leb_total; assumption.
  - exists pb. split; [exact Hbest|]. split; [exact Hpos|].
    intros e [He | ->] Hpe; [auto|]. unfold aboveZero in Hpe. congruence.
Qed.

Lemma fastestLoop_least (order : list (Z * Float64.float64)) :
  forall (seen : Z * Float64.float64 -> Prop) (best : Z),
  (forall entry, In entry order -> pingList !! fst entry = Some (snd entry)) ->
  leastOf seen best ->
  leastOf (fun e => seen e \/ In e order) (fold_left (fastestStep pingList) order best).
Proof.
  induction order as [|entry rest IH]; intros seen best Hentries Hbest; cbn [fold_left].
  - destruct Hbest as (pb & H1 & H2 & H3). exists pb. repeat split; try assumption.
    intros e [He | []]. auto.
  - destruct (IH (fun e => seen e \/ e = entry) (fastestStep pingList best entry))
      as (pb & H1 & H2 & H3).
    + intros e He. apply Hentries. right. exact He.
    + apply fastestStep_least; [apply Hentries; left; reflexivity | exact Hbest].
    + exists pb. repeat split; try assumption.
      intros e [He | [<- | He]]; apply H3; tauto.
Qed.

(** The loop ends with 0 or with the index of a visited entry. *)
Lemma fastestLoop_index (order : list (Z * Float64.float64)) :
  forall best,
  fold_left (fastestStep pingList) order best = best \/
  exists entry, In entry order /\ fold_left (fastestStep pingList) order best = fst entry.
Proof.
  induction order as [|entry rest IH]; intros best; cbn [fold_left]; [left; reflexivity|].
  destruct (IH (fastestStep pingList best entry)) as [Hsame | (e & He & Hres)].
  - rewrite Hsame. unfold fastestStep.
    destruct (Float64.ltb Float64.zero (snd entry) && _);
      [right; exists entry; split; [left|]; reflexivity | left; reflexivity].
  - right. exists e. split; [right; exact He | exact Hres].
Qed.

End Loop.

Lemma rangeOrder_entries (pingList : gmap Z Float64.float64)
    (order : list (Z * Float64.float64)) :
  rangeOrder pingList order ->
  forall idx p, In (idx, p) order <-> pingList !! idx = Some p.
Proof.
  intros Horder idx p. unfold rangeOrder in Horder.
  rewrite <- list_elem_of_In, Horder. apply elem_of_map_to_list.
Qed.

(** X20: when candidate 0 has a result above 0, the loop ends, whatever the
    order of the visit, with a candidate whose latency is above 0 and at
    most the latency of every candidate with a result above 0: a fastest
    one. *)
Theorem fastest_has_least_latency
    (pingList : gmap Z Float64.float64) (order : list (Z * Float64.float64))
    (p0 : Float64.float64) :
  rangeOrder pingList order ->
  pingList !! 0 = Some p0 ->
  Float64.ltb Float64.zero p0 = true ->
  exists pb,
    pingList !! fastestIndex pingList order = Some pb /\
    Float64.ltb Float64.zero pb = true /\
    forall idx p, pingList !! idx = Some p -> Float64.ltb Float64.zero p = true ->
                  Float64.leb pb p = true.
Proof.
  intros Horder H0 Hp0.
  destruct (fastestLoop_least pingList order (fun _ => False) 0) as (pb & H1 & H2 & H3).
  - intros [idx p] Hin. apply (rangeOrder_entries _ _ Horder). exact Hin.
  - exists p0. split; [exact H0|]. split; [exact Hp0|]. intros e [].
  - exists pb. split; [exact H1|]. split; [exact H2|].
    intros idx p Hlook Hpos. apply (H3 (idx, p)); [|exact Hpos].
    right. apply (rangeOrder_entries _ _ Horder). exact Hlook.
Qed.

Lemma fastest_has_least_latency_witness :
  let pingList : gmap Z Float64.float64 := <[2 := ms 7]> (<[1 := ms 3]> (<[0 := ms 5]> ∅)) in
  exists pb,
    pingList !! fastestIndex pingList (map_to_list pingList) = Some pb /\
    Float64.ltb Float64.zero pb = true /\
    forall idx p, pingList !! idx = Some p -> Float64.ltb Float64.zero p = true ->
                  Float64.leb pb p = true.
Proof.
  intros pingList.
  apply (fastest_has_least_latency pingList (map_to_list pingList) (ms 5)).
  - unfold rangeOrder. reflexivity.
  - reflexivity.
  - reflexivity.
Defined.

(** X21: the selection never indexes outside the candidate list.  When the
    map of results is not empty and every key in it is an index into the
    candidates, as the indices of the jobs are, [selectServer] returns a
    server of the list, whatever the latencies and the order of the visit. *)
Theorem selectServer_in_range
    (servers : list Server) (pingList : gmap Z Float64.float64)
    (order : list (Z * Float64.float64)) :
  size pingList <> 0%nat ->
  (forall idx p, pingList !! idx = Some p -> 0 <= idx < len servers) ->
  rangeOrder pingList order ->
  exists server, selectServer servers pingList order = Ret server /\ In server servers.
Proof.
  intros Hsize Hkeys Horder.
  assert (Hsome : exists idx p, pingList !! idx = Some p).
  { destruct (map_to_list pingList) as [|[idx p] rest] eqn:Hl.
    - apply map_to_list_empty_iff in Hl. subst. rewrite map_size_empty in Hsize. contradiction.
    - exists idx, p. apply elem_of_map_to_list. rewrite Hl. left. }
  destruct Hsome as (idx0 & q0 & Hq0). pose proof (Hkeys _ _ Hq0) as Hlen.
  assert (Hidx : 0 <= fastestIndex pingList order < len servers).
  { unfold fastestIndex.
    destruct (fastestLoop_index pingList order 0) as [-> | ([idx p] & Hin & ->)]; [lia|].
    apply (Hkeys idx p), (rangeOrder_entries _ _ Horder), Hin. }
  destruct (servers !! Z.to_nat (fastestIndex pingList order)) as [server|] eqn:Hsrv.
  - exists server. split.
    + apply (selectServer_at _ _ _ (Z.to_nat (fastestIndex pingList order)));
        [exact Hsize | lia | exact Hsrv].
    + apply list_elem_of_In, list_elem_of_lookup. eauto.
  - apply lookup_ge_None in Hsrv. unfold len in Hidx. lia.
Qed.

Lemma selectServer_in_range_witness :
  let s := FilterFacts.sampleServer in
  let pingList : gmap Z Float64.float64 := <[1 := ms 3]> (<[0 := ms 5]> ∅) in
  exists server,
    selectServer [s 10 Standard; s 11 Standard] pingList (map_to_list pingList) = Ret server /\
    In server [s 10 Standard; s 11 Standard].
Proof.
  intros s pingList.
  apply (selectServer_in_range [s 10 Standard; s 11 Standard] pingList (map_to_list pingList)).
  - vm_compute. discriminate.
  - intros idx p H. unfold pingList in H.
    apply lookup_insert_Some in H as [[<- _] | [_ H]]; [unfold len; cbn; lia|].
    apply lookup_insert_Some in H as [[<- _] | [_ H]]; [unfold len; cbn; lia|].
    rewrite lookup_empty in H. discriminate.
  - unfold rangeOrder. reflexivity.
Defined.

End FastestFacts.
